(** * The treemap viewer of lighthouse-treemap/app/src/util.js

    A shallow embedding of the utility class [Util], of the depth-first
    visitor [dfs], and of the parts of [TreemapViewer] and [createViewModes]
    that decide what is shown, followed by the properties proved of them.

    Conventions of the embedding.
    - A JavaScript string is the list of its UTF-16 code units.
    - Byte counts, times, hashes and indices are integers below 2^53, where
      the double-precision arithmetic of the source (+, -, comparison, the
      remainder and the division by a power of two) is exact: they are
      values of [Z].  The one computation that is not exact on them, the
      percentage [value / total * 100], is carried out on binary64 floats.
    - [undefined] is [None] of an option type; a thrown error is a value of
      [Error] next to the state the statements before the throw left.  *)

From Stdlib Require Import ZArith List Lia QArith Qround Ascii String DecimalString.
From Stdlib Require Import Floats.PrimFloat Floats.SpecFloat Floats.FloatOps.
From Stdlib Require Import Numbers.Cyclic.Int63.Uint63.
From stdpp Require Import base gmap list strings sorting.

Set Warnings "-register-all".

(** ** JavaScript values and built-ins used by the source *)

Module Js.

Definition jsstring := list N.

(** An ASCII literal as a JavaScript string. *)
Definition str (s : string) : jsstring :=
  N_of_ascii <$> list_ascii_of_string s.

(** U+2026, the one code unit of the literal ['…']. *)
Definition ellipsis : N := 8230%N.
(** U+2022, the middle code unit of the literal [' • ']. *)
Definition bullet : N := 8226%N.

(** [String(z)] for an integer-valued number. *)
Definition Number_toString (z : Z) : jsstring :=
  str (NilZero.string_of_int (Z.to_int z)).

(** [String(x)] for a number with at most one binary digit after the
    point. *)
Definition Number_toString_Q (x : Q) : jsstring :=
  let twice := Qfloor (x * 2) in
  if Z.even twice then Number_toString (twice / 2)
  else
    (if (twice <? 0)%Z then str "-" else [])
      ++ Number_toString (Z.abs twice / 2) ++ str ".5".

(** [`${v}`] for a number that may be [undefined]. *)
Definition template_num (v : option Z) : jsstring :=
  match v with
  | Some z => Number_toString z
  | None => str "undefined"
  end.

(** [`${v}`] for a string that may be [undefined]. *)
Definition template_str (v : option jsstring) : jsstring :=
  match v with
  | Some s => s
  | None => str "undefined"
  end.

(** Truthiness of a string that may be [undefined]. *)
Definition truthy_str (v : option jsstring) : bool :=
  match v with
  | Some (_ :: _) => true
  | _ => false
  end.

(** The clamping of a relative index that [slice] and [splice] share:
    a negative index counts from the end. *)
Definition relative_index (len rel : Z) : Z :=
  if (rel <? 0)%Z then Z.max (len + rel) 0 else Z.min rel len.

(** [s.slice(start, end)]. *)
Definition slice {A} (s : list A) (start stop : Z) : list A :=
  let len := Z.of_nat (length s) in
  let from := relative_index len start in
  let to := relative_index len stop in
  take (Z.to_nat (Z.max (to - from) 0)) (drop (Z.to_nat from) s).

(** [items.splice(start, deleteCount)]: the removed elements and the
    array that is left. *)
Definition splice {A} (items : list A) (start deleteCount : Z)
  : list A * list A :=
  let len := Z.of_nat (length items) in
  let actualStart := relative_index len start in
  let actualDeleteCount := Z.min (Z.max deleteCount 0) (len - actualStart) in
  (take (Z.to_nat actualDeleteCount) (drop (Z.to_nat actualStart) items),
   take (Z.to_nat actualStart) items
     ++ drop (Z.to_nat (actualStart + actualDeleteCount)) items).

(** [hash % n], then the [ToIntegerOrInfinity] that [splice] applies to
    it: the remainder has the sign of the dividend, and [undefined % n]
    is [NaN], which is read as index 0. *)
Definition rem_index (hash : option Z) (n : Z) : Z :=
  match hash with
  | Some h => Z.rem h n
  | None => 0%Z
  end.

(** [precedence.indexOf(a)]: the first index of [a], or -1. *)
Fixpoint indexOf_from {A} `{EqDecision A} (l : list A) (a : A) (i : Z) : Z :=
  match l with
  | [] => (-1)%Z
  | x :: l' => if decide (x = a) then i else indexOf_from l' a (i + 1)%Z
  end.

Definition indexOf {A} `{EqDecision A} (l : list A) (a : A) : Z :=
  indexOf_from l a 0%Z.

(** [ids.includes(x)] on an array. *)
Definition includes {A} `{EqDecision A} (l : list A) (a : A) : bool :=
  bool_decide (a ∈ l).

(** Is [sub] a prefix of [s]? *)
Fixpoint startsWith (s sub : jsstring) : bool :=
  match sub, s with
  | [], _ => true
  | c :: sub', d :: s' => if decide (c = d) then startsWith s' sub' else false
  | _ :: _, [] => false
  end.

(** [s.includes(sub)] on a string. *)
Fixpoint String_includes (s sub : jsstring) : bool :=
  startsWith s sub ||
  match s with
  | [] => false
  | _ :: s' => String_includes s' sub
  end.

(** [parts.join(sep)]. *)
Fixpoint join (sep : jsstring) (parts : list jsstring) : jsstring :=
  match parts with
  | [] => []
  | [p] => p
  | p :: ps => p ++ sep ++ join sep ps
  end.

(** The integer [n] for which [n / 10^f] is nearest to [x], the larger
    one when there are two. *)
Definition nearest (x : Q) (f : nat) : Z :=
  Qfloor (x * inject_Z (10 ^ Z.of_nat f) + (1 # 2)).

(** The digits of [n], with a point before the last [f] of them when
    [f] is not 0, and zeros in front to have a digit before the point. *)
Definition fixed_digits (n : Z) (f : nat) : jsstring :=
  let m := Number_toString n in
  if (f =? 0)%nat then m
  else
    let m := replicate (S f - length m) 48%N ++ m in
    let k := length m in
    take (k - f) m ++ str "." ++ drop (k - f) m.

(** [x.toFixed(f)] for a finite [x] below 10^21, given exactly: the
    digits of the integer [n] with [n / 10^f] nearest to [x]; a negative
    [x] is printed as ["-"] before the digits for [-x]. *)
Definition toFixed (x : Q) (f : nat) : jsstring :=
  if Qlt_le_dec x 0 then str "-" ++ fixed_digits (nearest (- x) f) f
  else fixed_digits (nearest x f) f.

(** The number an integer of the model stands for, as a binary64 float
    (the same number, for an integer below 2^53 in absolute value). *)
Definition of_Z (z : Z) : float :=
  if (z <? 0)%Z then PrimFloat.opp (PrimFloat.of_uint63 (Uint63.of_Z (- z)))
  else PrimFloat.of_uint63 (Uint63.of_Z z).

Definition nan : float := PrimFloat.div PrimFloat.zero PrimFloat.zero.

(** [ToNumber] of a number that may be [undefined]. *)
Definition ToNumber (v : option Z) : float :=
  match v with
  | Some z => of_Z z
  | None => nan
  end.

(** What [Math.round] returns: [NaN], an infinity, or an integer
    (a negative zero prints as ["0"], like zero). *)
Inductive rounded :=
  | RNaN
  | RInfinity (negative : bool)
  | RInt (z : Z).

(** [Math.round(x)]: the integer nearest to [x], the larger one on a tie,
    that is the floor of [x + 1/2] computed exactly. *)
Definition Math_round (x : float) : rounded :=
  match Prim2SF x with
  | S754_nan => RNaN
  | S754_infinity s => RInfinity s
  | S754_zero _ => RInt 0
  | S754_finite s m e =>
      let v := if s then Z.neg m else Z.pos m in
      if (0 <=? e)%Z then RInt (v * 2 ^ e)
      else RInt ((2 * v + 2 ^ (- e)) / 2 ^ (1 - e))
  end.

(** [`${r}`] for a result of [Math.round]. *)
Definition rounded_toString (r : rounded) : jsstring :=
  match r with
  | RNaN => str "NaN"
  | RInfinity false => str "Infinity"
  | RInfinity true => str "-Infinity"
  | RInt z => Number_toString z
  end.

End Js.

(** ** util.js: the class [Util] *)

Module Util.
Import Js.

Definition KB : Z := 1024.
Definition MB : Z := KB * KB.

(** [static elide(string, length)]. *)
Definition elide (string : jsstring) (length : Z) : jsstring :=
  if (Z.of_nat (List.length string) <=? length)%Z then string
  else slice string 0 length ++ [ellipsis].

(** [static formatBytes(bytes)].  The sizes of the source are integers,
    or halves of integers (the duplicate modules count half of [bytes]). *)
Definition formatBytes (bytes : Q) : jsstring :=
  if Qle_bool (inject_Z MB) bytes
  then toFixed (bytes / inject_Z MB) 2 ++ str " MB"
  else if Qle_bool (inject_Z KB) bytes
  then toFixed (bytes / inject_Z KB) 0 ++ str " KB"
  else Number_toString_Q bytes ++ str " B".

(** [static format(value, unit)]; [value] is [undefined] when the node
    lacks the metric. *)
Definition format (value : option Z) (unit : jsstring) : jsstring :=
  if decide (unit = str "bytes") then
    match value with
    | Some v => formatBytes (inject_Z v)
    | None => str "undefined B"
    end
  else if decide (unit = str "time") then template_num value ++ str " ms"
  else template_num value ++ str " " ++ unit.

Section SortByPrecedence.
(** [String.prototype.localeCompare], which the host's locale data
    decides. *)
Variable localeCompare : jsstring -> jsstring -> Z.

(** [static sortByPrecedence(precedence, a, b)]. *)
Definition sortByPrecedence (precedence : list jsstring) (a b : jsstring) : Z :=
  let aIndex := indexOf precedence a in
  let bIndex := indexOf precedence b in
  if (aIndex =? -1)%Z && (bIndex =? -1)%Z then localeCompare a b
  else if (aIndex =? -1)%Z && (bIndex >=? 0)%Z then 1%Z
  else if (bIndex =? -1)%Z && (aIndex >=? 0)%Z then (-1)%Z
  else (aIndex - bIndex)%Z.
End SortByPrecedence.

(** The closure [stableHasher] returns: its private copy of [items] and
    the object [assignedItems], keyed by the hash ([String(hash)] is
    injective on the integers and on [undefined]). *)
Record Hasher (T : Type) := mkHasher {
  items : list T;
  assignedItems : gmap (option Z) T;
}.
Arguments mkHasher {T} _ _.
Arguments items {T} _.
Arguments assignedItems {T} _.

(** [static stableHasher(items)]. *)
Definition stableHasher {T} (items : list T) : Hasher T :=
  mkHasher items ∅.

(** A call [hasher(hash)] of the returned function: the result ([None]
    is [null]) and the closure afterwards. *)
Definition call {T} (hash : option Z) (h : Hasher T) : option T * Hasher T :=
  match assignedItems h !! hash with
  | Some assigned => (Some assigned, h)
  | None =>
      if (List.length (items h) =? 0)%nat then (None, h)
      else
        let '(removed, rest) :=
          splice (items h) (rem_index hash (Z.of_nat (List.length (items h)))) 1 in
        match removed with
        | assignedColor :: _ =>
            (Some assignedColor,
             mkHasher rest (<[hash := assignedColor]> (assignedItems h)))
        | [] => (None, h) (* not reached: see [splice_one] *)
        end
  end.

(** A CSS value: a colour keyword, or the string
    [`hsl(${h}, ${s}%, ${l}%)`] given by its three numbers. *)
Inductive css_value :=
  | css_keyword (name : jsstring)
  | css_hsl (h : float) (s l : Z).

(** [static hsl(h, s, l)]. *)
Definition hsl (h : float) (s l : Z) : css_value := css_hsl h s l.

(** [Math.max(a, b, c)] and [Math.min(a, b, c)], on numbers that are
    not [NaN]. *)
Definition Math_max (a b c : float) : float :=
  let m := if PrimFloat.ltb a b then b else a in
  if PrimFloat.ltb m c then c else m.

Definition Math_min (a b c : float) : float :=
  let m := if PrimFloat.ltb b a then b else a in
  if PrimFloat.ltb c m then c else m.

(** [static rgb2hue(r, g, b)], on finite numbers. *)
Definition rgb2hue (r g b : float) : float :=
  let r := PrimFloat.div r (of_Z 255) in
  let g := PrimFloat.div g (of_Z 255) in
  let b := PrimFloat.div b (of_Z 255) in
  let max := Math_max r g b in
  let min := Math_min r g b in
  let c := PrimFloat.sub max min in
  let hue :=
    if PrimFloat.eqb c PrimFloat.zero then PrimFloat.zero
    else if PrimFloat.eqb max r then
      let segment := PrimFloat.div (PrimFloat.sub g b) c in
      let shift :=
        if PrimFloat.ltb segment PrimFloat.zero
        then PrimFloat.div (of_Z 360) (of_Z 60)
        else PrimFloat.div (of_Z 0) (of_Z 60) in
      PrimFloat.add segment shift
    else if PrimFloat.eqb max g then
      let segment := PrimFloat.div (PrimFloat.sub b r) c in
      let shift := PrimFloat.div (of_Z 120) (of_Z 60) in
      PrimFloat.add segment shift
    else if PrimFloat.eqb max b then
      let segment := PrimFloat.div (PrimFloat.sub r g) c in
      let shift := PrimFloat.div (of_Z 240) (of_Z 60) in
      PrimFloat.add segment shift
    else nan in
  PrimFloat.mul hue (of_Z 60).

(** [parseInt(part, 16)] on hexadecimal digits. *)
Definition hex_digit (c : ascii) : Z :=
  let n := Z.of_N (N_of_ascii c) in
  if (48 <=? n)%Z && (n <=? 57)%Z then (n - 48)%Z
  else if (65 <=? n)%Z && (n <=? 70)%Z then (n - 55)%Z
  else (n - 87)%Z.

Definition parseInt16 (part : list ascii) : Z :=
  fold_left (fun acc c => (acc * 16 + hex_digit c)%Z) part 0%Z.

(** [hex.slice(1).split(/(..)/).filter(Boolean)]: the pairs of digits
    after the ['#']. *)
Fixpoint pairs (l : list ascii) : list (list ascii) :=
  match l with
  | c :: d :: l' => [c; d] :: pairs l'
  | [c] => [[c]]
  | [] => []
  end.

Definition hexParts (hex : string) : list (list ascii) :=
  pairs (drop 1 (list_ascii_of_string hex)).

(** The callback of the [map] that makes [Util.COLOR_HUES]. *)
Definition hue_of_hex (hex : string) : float :=
  match parseInt16 <$> hexParts hex with
  | r :: g :: b :: _ => rgb2hue (of_Z r) (of_Z g) (of_Z b)
  | _ => nan
  end.

(** [Util.COLOR_HUES]. *)
Definition COLOR_HUES : list float :=
  hue_of_hex <$>
    [ "#F44336"; "#E91E63"; "#9C27B0"; "#673AB7"; "#3F51B5"; "#03A9F4";
      "#00BCD4"; "#009688"; "#4CAF50"; "#8BC34A"; "#CDDC39"; "#FFC107";
      "#FF9800"; "#FF5722"; "#795548"; "#9E9E9E"; "#607D8B" ]%string.

End Util.

(** ** The tree of nodes and its depth-first visitor *)

Module Treemap.
Import Js.

(** What the source throws: [new Error(message)], or the engine's
    [TypeError] on a property read of [undefined] or [null]. *)
Inductive Exception :=
  | Error (message : jsstring)
  | TypeError.

(** The inline style of a node's DOM element, as far as the source
    writes it. *)
Record Style := mkStyle {
  backgroundColor : option Util.css_value;
  color : option Util.css_value;
}.

(** A node, with every field the source reads or adds.  [id] is missing
    on the synthetic nodes of a group view; [originalId] and [idHash] are
    added by the constructor, [size] by [show], [dom] by the layout
    library; a leaf has no [children] property. *)
Inductive Node := mkNode {
  id : option jsstring;
  originalId : option jsstring;
  idHash : option Z;
  bytes : Z;
  wastedBytes : Z;
  executionTime : option Z;
  duplicate : bool;
  size : option Z;
  children : option (list Node);
  dom : option Style;
}.

Definition set_id (v : option jsstring) (n : Node) : Node :=
  mkNode v (originalId n) (idHash n) (bytes n) (wastedBytes n)
    (executionTime n) (duplicate n) (size n) (children n) (dom n).
Definition set_originalId (v : option jsstring) (n : Node) : Node :=
  mkNode (id n) v (idHash n) (bytes n) (wastedBytes n)
    (executionTime n) (duplicate n) (size n) (children n) (dom n).
Definition set_idHash (v : option Z) (n : Node) : Node :=
  mkNode (id n) (originalId n) v (bytes n) (wastedBytes n)
    (executionTime n) (duplicate n) (size n) (children n) (dom n).
Definition set_size (v : option Z) (n : Node) : Node :=
  mkNode (id n) (originalId n) (idHash n) (bytes n) (wastedBytes n)
    (executionTime n) (duplicate n) v (children n) (dom n).
Definition set_children (v : option (list Node)) (n : Node) : Node :=
  mkNode (id n) (originalId n) (idHash n) (bytes n) (wastedBytes n)
    (executionTime n) (duplicate n) (size n) v (dom n).
Definition set_dom (v : option Style) (n : Node) : Node :=
  mkNode (id n) (originalId n) (idHash n) (bytes n) (wastedBytes n)
    (executionTime n) (duplicate n) (size n) (children n) v.

(** The node at a position: the indices of the children to descend
    through.  A position stands for the identity of a node object of the
    tree being visited. *)
Fixpoint node_at (n : Node) (pos : list nat) : option Node :=
  match pos with
  | [] => Some n
  | i :: pos' =>
      match children n with
      | Some cs =>
          match cs !! i with
          | Some c => node_at c pos'
          | None => None
          end
      | None => None
      end
  end.

Section Dfs.
Context {S : Type}.

(** The callback [fn(node, fullId)]: it may change the fields of
    [node] other than [children] and a state [S] of its own, or throw.
    [pos] tells the callback which node object it is given. *)
Variable fn :
  list nat -> Node -> option jsstring -> S -> (Exception + Node) * S.

(** [fullId = fullId ? `${fullId}/${node.id}` : node.id]. *)
Definition extend_fullId (fullId : option jsstring) (node : Node)
  : option jsstring :=
  if truthy_str fullId
  then Some (template_str fullId ++ str "/" ++ template_str (id node))
  else id node.

(** [function dfs(node, fn, fullId = '')]: the tree and the state
    after the visit, and the exception that ended it, if one did. *)
Fixpoint dfs (pos : list nat) (node : Node) (fullId : option jsstring)
  (s : S) {struct node} : Node * S * option Exception :=
  let fullId := extend_fullId fullId node in
  match fn pos node fullId s with
  | (inl e, s) => (node, s, Some e)
  | (inr node', s) =>
      match children node with
      | None => (node', s, None)
      | Some cs =>
          let '(cs', s, e) :=
            (fix for_of (i : nat) (cs : list Node) (s : S)
               : list Node * S * option Exception :=
               match cs with
               | [] => ([], s, None)
               | child :: rest =>
                   match dfs (pos ++ [i]) child fullId s with
                   | (child', s, Some e) => (child' :: rest, s, Some e)
                   | (child', s, None) =>
                       let '(rest', s, e) := for_of (Datatypes.S i) rest s in
                       (child' :: rest', s, e)
                   end
               end) 0%nat cs s in
          (set_children (Some cs') node', s, e)
      end
  end.

(** The loop over the children, as a function of its own. *)
Fixpoint dfs_children (pos : list nat) (fullId : option jsstring)
  (i : nat) (cs : list Node) (s : S)
  : list Node * S * option Exception :=
  match cs with
  | [] => ([], s, None)
  | child :: rest =>
      match dfs (pos ++ [i]) child fullId s with
      | (child', s, Some e) => (child' :: rest, s, Some e)
      | (child', s, None) =>
          let '(rest', s, e) := dfs_children pos fullId (Datatypes.S i) rest s in
          (child' :: rest', s, e)
      end
  end.
End Dfs.

(** A call [dfs(node, fn)], with the default [fullId = '']. *)
Definition dfs_root {S} fn (node : Node) (s : S) :=
  dfs (S:=S) fn [] node (Some []) s.

(** The calls [fn(node, fullId)] of a visit, in order. *)
Definition record_visit (pos : list nat) (node : Node)
  (fullId : option jsstring) (log : list (list nat * Node * option jsstring))
  : (Exception + Node) * list (list nat * Node * option jsstring) :=
  (inr node, log ++ [(pos, node, fullId)]).

(** The calls of [dfs(node, fn)]. *)
Definition visits (node : Node) : list (list nat * Node * option jsstring) :=
  (dfs_root record_visit node []).1.2.


(** *** The data given to the viewer *)

Module RootNode.
Record t := mk { id : jsstring; node : Node }.
End RootNode.

(** [TreemapData]: the groups, in the enumeration order of the object's
    keys. *)
Definition TreemapData := list (jsstring * list RootNode.t).

(** The metric a mode partitions by. *)
Inductive PartitionBy := pb_bytes | pb_wastedBytes | pb_executionTime.

Definition partitionBy_name (key : PartitionBy) : jsstring :=
  match key with
  | pb_bytes => str "bytes"
  | pb_wastedBytes => str "wastedBytes"
  | pb_executionTime => str "executionTime"
  end.

(** [node[key]]. *)
Definition metric (key : PartitionBy) (n : Node) : option Z :=
  match key with
  | pb_bytes => Some (bytes n)
  | pb_wastedBytes => Some (wastedBytes n)
  | pb_executionTime => executionTime n
  end.

Record DataSelector := mkSelector {
  type : jsstring;
  value : jsstring;
  viewId : option jsstring;
}.

Record Mode := mkMode {
  selector : DataSelector;
  partitionBy : option PartitionBy;
  highlightNodeIds : option (list (option jsstring));
}.

(** [options]: [lhr.requestedUrl], the [treemapData] of the audit's
    details when both are there, and [mode]. *)
Record Options := mkOptions {
  requestedUrl : jsstring;
  details_treemapData : option TreemapData;
  options_mode : Mode;
}.

(** *** The page *)

(** An element [createViewModes] appends to the panel: its text, whether
    it is marked active, and the mode a click on it shows (a click on
    the active one does nothing). *)
Record ViewModeEl := mkViewModeEl {
  innerText : jsstring;
  active : bool;
  newMode : Mode;
}.

(** A row of the table [createTable] builds. *)
Record Row := mkRow {
  row_name : option jsstring;
  row_bytes : Z;
  row_wastedBytes : Z;
}.

Record Table := mkTable {
  data : list Row;
  maxSize : Z;
  maxWastedBytes : Z;
}.

(** The elements of the page that [show] looks up: [None] when the page
    has no element for the query, else what the viewer last put there. *)
Record Page := mkPage {
  partition_selector : option (option PartitionBy);
  panel_modals : option (list ViewModeEl);
  panel_datagrid : option (option Table);
}.

(** [this.treemap]: unset, or a [webtreemap.TreeMap] over the object
    that [this.currentRootNode] is, or over a tree that no longer is the
    current root (a [show] that threw after replacing the root). *)
Inductive TreeMapRef :=
  | NoTreeMap
  | TreeMapOfCurrent
  | TreeMapOf (node : Node).

(** The viewer and the page it lives in.  [el] tells whether the
    container holds the root element of [this.treemap]. *)
Record Viewer := mkViewer {
  mode : Mode;
  treemapData : TreemapData;
  currentRootNode : option Node;
  documentUrl : jsstring;
  el : bool;
  treemap : TreeMapRef;
  getHue : Util.Hasher float;
  page : Page;
}.

Definition set_mode (x : Mode) (v : Viewer) : Viewer :=
  mkViewer x (treemapData v) (currentRootNode v) (documentUrl v) (el v)
    (treemap v) (getHue v) (page v).
Definition set_currentRootNode (x : option Node) (v : Viewer) : Viewer :=
  mkViewer (mode v) (treemapData v) x (documentUrl v) (el v)
    (treemap v) (getHue v) (page v).
Definition set_el (x : bool) (v : Viewer) : Viewer :=
  mkViewer (mode v) (treemapData v) (currentRootNode v) (documentUrl v) x
    (treemap v) (getHue v) (page v).
Definition set_treemap (x : TreeMapRef) (v : Viewer) : Viewer :=
  mkViewer (mode v) (treemapData v) (currentRootNode v) (documentUrl v) (el v)
    x (getHue v) (page v).
Definition set_getHue (x : Util.Hasher float) (v : Viewer) : Viewer :=
  mkViewer (mode v) (treemapData v) (currentRootNode v) (documentUrl v) (el v)
    (treemap v) x (page v).
Definition set_page (x : Page) (v : Viewer) : Viewer :=
  mkViewer (mode v) (treemapData v) (currentRootNode v) (documentUrl v) (el v)
    (treemap v) (getHue v) x.

(** *** Methods as state transformers that may throw *)

Definition M (A : Type) : Type := Viewer -> (Exception + A) * Viewer.

Definition ret {A} (a : A) : M A := fun v => (inr a, v).
Definition throw {A} (e : Exception) : M A := fun v => (inl e, v).
Definition bind {A B} (m : M A) (k : A -> M B) : M B :=
  fun v =>
    match m v with
    | (inl e, v') => (inl e, v')
    | (inr a, v') => k a v'
    end.
Definition get : M Viewer := fun v => (inr v, v).
Definition modify (f : Viewer -> Viewer) : M unit := fun v => (inr tt, f v).

#[global] Instance M_ret : MRet M := @ret.
#[global] Instance M_bind : MBind M := fun A B k m => bind m k.

(** [Util.find(query)], in the message of its error. *)
Definition query_not_found (query : jsstring) : Exception :=
  Error (str "query " ++ query ++ str " not found").

(** *** The layout library *)

(** The order [webtreemap.sort] sorts by: [a] is smaller than [b]; an
    [undefined] size is neither smaller nor larger than another. *)
Definition size_lt (a b : Node) : bool :=
  match size a, size b with
  | Some x, Some y => (x <? y)%Z
  | _, _ => false
  end.

(** [x] put into a list in descending order of [size], before the
    first element smaller than it. *)
Fixpoint insert_by_size (x : Node) (l : list Node) : list Node :=
  match l with
  | [] => [x]
  | y :: l' => if size_lt y x then x :: y :: l' else y :: insert_by_size x l'
  end.

(** A list in descending order of [size]. *)
Definition sort_by_size (l : list Node) : list Node :=
  foldr insert_by_size [] l.

(** Modelled from the spec: [webtreemap.sort] belongs to the external
    layout library; the spec says of it that it sorts children by
    [size].  It is taken to put the children of every node in descending
    order of [size], keeping the order of children it cannot tell
    apart. *)
Fixpoint webtreemap_sort (n : Node) : Node :=
  match children n with
  | None => n
  | Some cs => set_children (Some (sort_by_size (map webtreemap_sort cs))) n
  end.

(** The layout library's [ensureDOM(node)]: a node without a DOM
    element gets one, with no colour set. *)
Definition ensureDOM (n : Node) : Node :=
  match dom n with
  | Some _ => n
  | None => set_dom (Some (mkStyle None None)) n
  end.

Section Layout.
(** Which nodes below the root the layout library lays out, which it
    decides from the geometry of the container. *)
Variable shown : list nat -> Node -> bool.

(** Modelled from the spec: [TreeMap.render] belongs to the external
    layout library; the spec says of it that it attaches per-node DOM
    references.  It is taken to give a DOM element to the root and to
    the nodes it lays out, and to keep the element a node has. *)
Fixpoint attach_dom (pos : list nat) (n : Node) : Node :=
  let n' := if shown pos n then ensureDOM n else n in
  match children n with
  | None => n'
  | Some cs =>
      set_children
        (Some ((fix go (i : nat) (cs : list Node) : list Node :=
                  match cs with
                  | [] => []
                  | c :: rest => attach_dom (pos ++ [i]) c :: go (Datatypes.S i) rest
                  end) 0%nat cs)) n'
  end.

(** [treemap.render(el)], on the tree of the [TreeMap]. *)
Definition TreeMap_render (n : Node) : Node :=
  attach_dom [] (ensureDOM n).
End Layout.

(** *** [class TreemapViewer] *)

(** [[...id].map(char => char.charCodeAt(0))]: the first code unit of
    every code point, a surrogate pair being one code point. *)
Definition is_high_surrogate (c : N) : bool := (55296 <=? c)%N && (c <=? 56319)%N.
Definition is_low_surrogate (c : N) : bool := (56320 <=? c)%N && (c <=? 57343)%N.

Fixpoint first_units (s : jsstring) : list N :=
  match s with
  | [] => []
  | c :: s' =>
      c :: match s' with
           | d :: s'' =>
               if is_high_surrogate c && is_low_surrogate d
               then first_units s'' else first_units s'
           | [] => []
           end
  end.

(** [[...rootNode.id].reduce((acc, char) => acc + char.charCodeAt(0), 0)]. *)
Definition idHash_of (id : jsstring) : Z :=
  fold_left (fun acc char => (acc + Z.of_N char)%Z) (first_units id) 0%Z.

(** A callback that changes the node it is given and nothing else. *)
Definition update_node (f : Node -> Node)
  : list nat -> Node -> option jsstring -> unit -> (Exception + Node) * unit :=
  fun _ node _ s => (inr (f node), s).

(** The body of the constructor's loops: every node of a root node
    gets its [originalId] and the [idHash] of the root node's id. *)
Definition stamp (rootNode : RootNode.t) : RootNode.t :=
  let node := (dfs_root (update_node (fun node => set_originalId (id node) node))
                 (RootNode.node rootNode) tt).1.1 in
  let idHash := idHash_of (RootNode.id rootNode) in
  let node := (dfs_root (update_node (set_idHash (Some idHash))) node tt).1.1 in
  RootNode.mk (RootNode.id rootNode) node.

(** [constructor(options, el)], on a page. *)
Definition constructor (options : Options) (page : Page) : Exception + Viewer :=
  match details_treemapData options with
  | None => inl (Error (str "missing treemap-data"))
  | Some treemapData =>
      let treemapData :=
        map (fun group : jsstring * list RootNode.t =>
               (group.1, map stamp group.2)) treemapData in
      inr (mkViewer (options_mode options) treemapData None
             (requestedUrl options) false NoTreeMap
             (Util.stableHasher Util.COLOR_HUES) page)
  end.

(** [findRootNode(id)]; [None] is the [undefined] of falling off the
    end. *)
Definition findRootNode (id : jsstring) (v : Viewer) : option RootNode.t :=
  head (filter (fun rootNode => RootNode.id rootNode = id)
          (concat (map snd (treemapData v)))).

(** [this.treemapData[key]], when [key] is a group of the data. *)
Fixpoint group_lookup (data : TreemapData) (key : jsstring)
  : option (list RootNode.t) :=
  match data with
  | [] => None
  | (k, rootNodes) :: data' =>
      if decide (k = key) then Some rootNodes else group_lookup data' key
  end.

(** [this.currentRootNode = node]: a [TreeMap] over the old root keeps
    the old root. *)
Definition assign_currentRootNode (node : Node) (v : Viewer) : Viewer :=
  let treemap :=
    match treemap v, currentRootNode v with
    | TreeMapOfCurrent, Some old => TreeMapOf old
    | TreeMapOfCurrent, None => NoTreeMap
    | t, _ => t
    end in
  set_currentRootNode (Some node) (set_treemap treemap v).

(** *** [createViewModes] *)

(** [makeViewMode(viewId, name, modeOptions)]: the element appended to
    the panel. *)
Definition makeViewMode (currentMode : Mode) (viewId name : jsstring)
  (options_partitionBy : PartitionBy)
  (options_highlightNodeIds : option (list (option jsstring))) : ViewModeEl :=
  let isCurrentView :=
    bool_decide (Some viewId = Treemap.viewId (selector currentMode)) in
  mkViewModeEl name isCurrentView
    (mkMode
       (mkSelector (type (selector currentMode)) (value (selector currentMode))
          (Some viewId))
       (Some options_partitionBy) options_highlightNodeIds).

(** The callback of the first block: the bytes of the leaves. *)
Definition all_fn (_ : list nat) (node : Node) (_ : option jsstring) (bytes : Z)
  : (Exception + Node) * Z :=
  match children node with
  | Some _ => (inr node, bytes)
  | None => (inr node, (bytes + Treemap.bytes node)%Z)
  end.

(** The callback of the second block: the leaves with at least 50 KiB
    of wasted bytes. *)
Definition unused_fn (_ : list nat) (node : Node) (_ : option jsstring)
  (acc : Z * list (option jsstring))
  : (Exception + Node) * (Z * list (option jsstring)) :=
  match children node with
  | Some _ => (inr node, acc)
  | None =>
      if (wastedBytes node <? 50 * 1024)%Z then (inr node, acc)
      else (inr node, ((acc.1 + wastedBytes node)%Z, acc.2 ++ [id node]))
  end.

(** The callback of the third block: the leaves of at least 200 KiB. *)
Definition large_fn (_ : list nat) (node : Node) (_ : option jsstring)
  (acc : Z * list (option jsstring))
  : (Exception + Node) * (Z * list (option jsstring)) :=
  match children node with
  | Some _ => (inr node, acc)
  | None =>
      if (Treemap.bytes node <? 200 * 1024)%Z then (inr node, acc)
      else (inr node, ((acc.1 + Treemap.bytes node)%Z, acc.2 ++ [id node]))
  end.

(** The callback of the fourth block: half the bytes of the leaves
    flagged [duplicate]. *)
Definition duplicate_fn (_ : list nat) (node : Node) (_ : option jsstring)
  (acc : Q * list (option jsstring))
  : (Exception + Node) * (Q * list (option jsstring)) :=
  match children node with
  | Some _ => (inr node, acc)
  | None =>
      if negb (duplicate node) then (inr node, acc)
      else (inr node, ((acc.1 + inject_Z (Treemap.bytes node) / 2)%Q,
                       acc.2 ++ [id node]))
  end.

(** [for (const rootNode of rootNodes) dfs(rootNode.node, fn)], on the
    root nodes that pass [keep]. *)
Definition over_rootNodes {S}
  (fn : list nat -> Node -> option jsstring -> S -> (Exception + Node) * S)
  (keep : RootNode.t -> bool) (rootNodes : list RootNode.t) (s : S) : S :=
  fold_left
    (fun s rootNode =>
       if keep rootNode then (dfs_root fn (RootNode.node rootNode) s).1.2 else s)
    rootNodes s.

(** [rootNode.node.children] is there: the root node is a bundle. *)
Definition is_bundle (rootNode : RootNode.t) : bool :=
  match children (RootNode.node rootNode) with
  | Some _ => true
  | None => false
  end.

(** What the second block computes: [bytes] and [highlightNodeIds]. *)
Definition unused_totals (rootNodes : list RootNode.t)
  : Z * list (option jsstring) :=
  over_rootNodes unused_fn (fun _ => true) rootNodes (0%Z, []).

(** The elements [createViewModes] leaves in the panel. *)
Definition viewModeEls (rootNodes : list RootNode.t) (currentMode : Mode)
  : list ViewModeEl :=
  (let bytes := over_rootNodes all_fn (fun _ => true) rootNodes 0%Z in
   [makeViewMode currentMode (str "all")
      (str "All (" ++ Util.formatBytes (inject_Z bytes) ++ str ")")
      pb_bytes None])
  ++
  (let '(bytes, highlightNodeIds) := unused_totals rootNodes in
   if (bytes =? 0)%Z then []
   else [makeViewMode currentMode (str "unused-js")
           (str "Unused JS (" ++ Util.formatBytes (inject_Z bytes) ++ str ")")
           pb_wastedBytes (Some highlightNodeIds)])
  ++
  (let '(bytes, highlightNodeIds) :=
     over_rootNodes large_fn is_bundle rootNodes (0%Z, []) in
   if (bytes =? 0)%Z then []
   else [makeViewMode currentMode (str "large-js")
           (str "Large Modules (" ++ Util.formatBytes (inject_Z bytes) ++ str ")")
           pb_bytes (Some highlightNodeIds)])
  ++
  (let '(bytes, highlightNodeIds) :=
     over_rootNodes duplicate_fn is_bundle rootNodes (0%Q, []) in
   if Qeq_bool bytes 0 then []
   else [makeViewMode currentMode (str "duplicate-js")
           (str "Duplicate Modules (" ++ Util.formatBytes bytes ++ str ")")
           pb_bytes (Some highlightNodeIds)]).

(** [function createViewModes(rootNodes, currentMode)]. *)
Definition createViewModes (rootNodes : list RootNode.t) (currentMode : Mode)
  : M unit :=
  v ← get;
  match panel_modals (page v) with
  | None => throw (query_not_found (str ".panel--modals"))
  | Some _ =>
      modify (set_page
                (mkPage (partition_selector (page v))
                   (Some (viewModeEls rootNodes currentMode))
                   (panel_datagrid (page v))))
  end.

(** *** [createTable] *)

(** The callback of [createTable]: a row for every leaf. *)
Definition table_fn (_ : list nat) (node : Node) (fullId : option jsstring)
  (t : Table) : (Exception + Node) * Table :=
  match children node with
  | Some _ => (inr node, t)
  | None =>
      let maxSize :=
        if (Treemap.bytes node =? 0)%Z then maxSize t
        else Z.max (maxSize t) (Treemap.bytes node) in
      let maxWastedBytes :=
        if (wastedBytes node =? 0)%Z then maxWastedBytes t
        else Z.max (maxWastedBytes t) (wastedBytes node) in
      (inr node,
       mkTable (data t ++ [mkRow fullId (Treemap.bytes node) (wastedBytes node)])
         maxSize maxWastedBytes)
  end.

(** [createTable(rootNodes)]: the rows and the two maxima given to the
    grid library. *)
Definition createTable (rootNodes : list RootNode.t) : M unit :=
  v ← get;
  match panel_datagrid (page v) with
  | None => throw (query_not_found (str ".panel--datagrid"))
  | Some _ =>
      let table :=
        over_rootNodes table_fn (fun _ => true) rootNodes (mkTable [] 0 0) in
      modify (set_page
                (mkPage (partition_selector (page v)) (panel_modals (page v))
                   (Some (Some table))))
  end.

(** *** [setTitle], [updateColors], [render] and [show] *)

(** [this.mode.partitionBy || 'bytes']. *)
Definition partition_key (mode : Mode) : PartitionBy :=
  default pb_bytes (partitionBy mode).

(** [Math.round(value / total * 100)], in binary64. *)
Definition percent (value total : option Z) : rounded :=
  Math_round
    (PrimFloat.mul (PrimFloat.div (ToNumber value) (ToNumber total)) (of_Z 100)).

(** The second section's [calculate(node)]. *)
Definition metric_text (mode : Mode) (total : option Z) (node : Node) : jsstring :=
  let unit :=
    match partitionBy mode with
    | Some pb_executionTime => str "time"
    | _ => str "bytes"
    end in
  let value := metric (partition_key mode) node in
  Util.format value unit ++ str " (" ++ rounded_toString (percent value total)
    ++ str "%)".

(** The label [setTitle] gives a node with a defined [originalId];
    [is_root] is [node === this.currentRootNode]. *)
Definition title_of (mode : Mode) (total : option Z) (is_root : bool)
  (originalId : jsstring) (node : Node) : jsstring :=
  join [32%N; bullet; 32%N]
    [ Util.elide originalId 60;
      match is_root, partitionBy mode with
      | true, Some label =>
          partitionBy_name label ++ str ": " ++ metric_text mode total node
      | _, _ => metric_text mode total node
      end ].

(** The callback of [setTitle]; [Util.elide] reads the length of
    [node.originalId], which throws when that is [undefined]. *)
Definition setTitle_fn (mode : Mode) (total : option Z)
  (pos : list nat) (node : Node) (_ : option jsstring) (s : unit)
  : (Exception + Node) * unit :=
  match originalId node with
  | None => (inl TypeError, s)
  | Some originalId =>
      (inr (set_id
              (Some (title_of mode total (bool_decide (pos = [])) originalId node))
              node), s)
  end.

(** [setTitle(node)], called on [this.currentRootNode]. *)
Definition setTitle : M unit :=
  v ← get;
  match currentRootNode v with
  | None => throw TypeError
  | Some root =>
      let total := metric (partition_key (mode v)) root in
      let '(root', _, e) := dfs_root (setTitle_fn (mode v) total) root tt in
      modify (set_currentRootNode (Some root'));;
      match e with
      | Some e => throw e
      | None => ret tt
      end
  end.

(** The callback of [updateColors]; its state is the closure
    [this.getHue]. *)
Definition updateColors_fn (mode : Mode)
  (_ : list nat) (node : Node) (_ : option jsstring) (getHue : Util.Hasher float)
  : (Exception + Node) * Util.Hasher float :=
  match dom node with
  | None => (inr node, getHue)
  | Some style =>
      match highlightNodeIds mode with
      | Some ids =>
          if includes ids (originalId node)
          then (inr (set_dom
                       (Some (mkStyle (Some (Util.css_keyword (str "yellow")))
                                (color style))) node), getHue)
          else (inr node, getHue)
      | None =>
          let '(hue, getHue) := Util.call (idHash node) getHue in
          match hue with
          | None => (inr node, getHue)
          | Some hue =>
              let sat := 60%Z in
              let lum := 90%Z in
              (inr (set_dom
                      (Some (mkStyle (Some (Util.hsl hue sat lum))
                               (Some (Util.css_keyword
                                        (if (lum >? 50)%Z then str "black"
                                         else str "white"))))) node), getHue)
          end
      end
  end.

(** [updateColors()]. *)
Definition updateColors : M unit :=
  v ← get;
  match currentRootNode v with
  | None => throw TypeError
  | Some root =>
      let '(root', getHue', e) :=
        dfs_root (updateColors_fn (mode v)) root (getHue v) in
      modify (fun v => set_getHue getHue' (set_currentRootNode (Some root') v));;
      match e with
      | Some e => throw e
      | None => ret tt
      end
  end.

Section Viewer.
Variable shown : list nat -> Node -> bool.

(** [render()]. *)
Definition render : M unit :=
  v ← get;
  match treemap v, currentRootNode v with
  | NoTreeMap, _ | TreeMapOfCurrent, None => throw TypeError
  | TreeMapOfCurrent, Some root =>
      modify (fun v =>
                set_el true
                  (set_currentRootNode (Some (TreeMap_render shown root)) v))
  | TreeMapOf node, _ =>
      modify (fun v =>
                set_el true
                  (set_treemap (TreeMapOf (TreeMap_render shown node)) v))
  end;;
  updateColors.

(** The wrapper a group view puts around a bundle. *)
Definition wrap (rootNode : RootNode.t) : Node :=
  let node := RootNode.node rootNode in
  match children node with
  | Some _ =>
      mkNode None (Some (RootNode.id rootNode)) (idHash node) (bytes node)
        (wastedBytes node) (executionTime node) false None (Some [node]) None
  | None => node
  end.

(** The synthetic root of a group view. *)
Definition group_root (documentUrl : jsstring) (children : list Node) : Node :=
  mkNode None (Some documentUrl) None
    (fold_left (fun acc cur => (bytes cur + acc)%Z) children 0%Z)
    (fold_left (fun acc cur => (wastedBytes cur + acc)%Z) children 0%Z)
    (Some (fold_left (fun acc cur => (default 0%Z (executionTime cur) + acc)%Z)
             children 0%Z))
    false None (Some children) None.

(** The first branch of [show]: the root nodes of a group under a
    synthetic root. *)
Definition select_group (mode : Mode) : M unit :=
  v ← get;
  match group_lookup (treemapData v) (value (selector mode)) with
  | None => throw TypeError
  | Some rootNodes =>
      let children := map wrap rootNodes in
      modify (assign_currentRootNode (group_root (documentUrl v) children));;
      createViewModes rootNodes mode;;
      createTable rootNodes
  end.

(** The second branch of [show]: one root node. *)
Definition select_rootNode (mode : Mode) : M unit :=
  v ← get;
  match findRootNode (value (selector mode)) v with
  | None => throw (Error (str "unknown root node"))
  | Some rootNode =>
      modify (assign_currentRootNode (RootNode.node rootNode));;
      createViewModes [rootNode] mode;;
      createTable [rootNode]
  end.

(** The statements of [show] from the clone of the current root (a
    clone is the same value, in a new object) to the new [TreeMap]. *)
Definition present (mode : Mode) : M unit :=
  modify (fun v =>
            match currentRootNode v with
            | Some root =>
                let root :=
                  (dfs_root
                     (update_node
                        (fun node => set_size (metric (partition_key mode) node) node))
                     root tt).1.1 in
                set_currentRootNode (Some (webtreemap_sort root)) v
            | None => v
            end);;
  setTitle;;
  modify (set_el false);;
  modify (set_treemap TreeMapOfCurrent).

(** [this.mode.partitionBy = 'bytes'] when the mode has none. *)
Definition with_partitionBy (mode : Mode) : Mode :=
  match partitionBy mode with
  | Some _ => mode
  | None => mkMode (selector mode) (Some pb_bytes) (highlightNodeIds mode)
  end.

(** All of [show(mode)] but its last statement, [this.render()]. *)
Definition rebuild (mode : Mode) : M unit :=
  let mode := with_partitionBy mode in
  modify (set_mode mode);;
  v ← get;
  match partition_selector (page v) with
  | None => throw (query_not_found (str ".partition-selector"))
  | Some _ =>
      modify (set_page
                (mkPage (Some (partitionBy mode)) (panel_modals (page v))
                   (panel_datagrid (page v))))
  end;;
  (if decide (type (selector mode) = str "group") then select_group mode
   else if decide (type (selector mode) = str "rootNodeId")
        then select_rootNode mode
        else throw (Error (str "invalid mode selector")));;
  present mode.

(** [show(mode)]. *)
Definition show (mode : Mode) : M unit :=
  rebuild mode;;
  render.

(** What happens to a viewer during a session. *)
Inductive Event :=
  | Show (mode : Mode)
  | Resize
  | Click.

(** The handler of an event; an exception it throws ends the handler
    and leaves the viewer as it was at the throw. *)
Definition handle (e : Event) (v : Viewer) : Viewer :=
  match e with
  | Show mode => (show mode v).2
  | Resize => (render v).2
  | Click => (updateColors v).2
  end.

(** The viewer after the events of a session. *)
Definition session (events : list Event) (v : Viewer) : Viewer :=
  fold_left (fun v e => handle e v) events v.
End Viewer.

End Treemap.

(** ** Notions the statements are written with *)

Module Spec.
Import Js.

(** [k] is the first index at which [a] occurs in [l]. *)
Definition first_index {A} (l : list A) (a : A) (k : nat) : Prop :=
  l !! k = Some a /\ forall j : nat, (j < k)%nat -> l !! j <> Some a.



(** What a hasher has handed out and what it has left make up the
    pool. *)
Definition accounts_for {T} (pool : list T) (h : Util.Hasher T) : Prop :=
  (map_to_list (Util.assignedItems h)).*2 ++ Util.items h ≡ₚ pool.


Import Treemap.

(** Induction on a node, with the property at hand for its children. *)
Section NodeInduction.
Variable P : Node -> Prop.
Hypothesis step : forall n : Node,
    (forall cs, children n = Some cs -> Forall P cs) -> P n.

Fixpoint Node_children_ind (n : Node) : P n :=
  step n
    (match n as n0
           return forall cs, children n0 = Some cs -> Forall P cs with
     | mkNode _ _ _ _ _ _ _ _ ocs _ =>
         fun cs (H : ocs = Some cs) =>
           eq_ind ocs
             (fun o => match o with Some l => Forall P l | None => True end)
             (match ocs as o
                    return match o with Some l => Forall P l | None => True end
              with
              | Some l =>
                  (fix all (l : list Node) : Forall P l :=
                     match l with
                     | [] => @List.Forall_nil Node P
                     | c :: l' => @List.Forall_cons Node P c l' (Node_children_ind c) (all l')
                     end) l
              | None => I
              end)
             (Some cs) H
     end).
End NodeInduction.

(** The leaves below a node, in the order of a depth-first visit. *)
Fixpoint leaves (n : Node) : list Node :=
  match children n with
  | None => [n]
  | Some cs => concat (map leaves cs)
  end.

(** The calls a visit makes, from the position and the [fullId] it is
    entered with. *)
Fixpoint visit_list (pos : list nat) (n : Node) (fullId : option jsstring)
  : list (list nat * Node * option jsstring) :=
  let fullId := extend_fullId fullId n in
  (pos, n, fullId) ::
  match children n with
  | None => []
  | Some cs =>
      (fix go (i : nat) (cs : list Node) :=
         match cs with
         | [] => []
         | c :: rest => visit_list (pos ++ [i]) c fullId ++ go (S i) rest
         end) 0%nat cs
  end.

Fixpoint visit_list_children (pos : list nat) (fullId : option jsstring)
  (i : nat) (cs : list Node) : list (list nat * Node * option jsstring) :=
  match cs with
  | [] => []
  | c :: rest =>
      visit_list (pos ++ [i]) c fullId ++ visit_list_children pos fullId (S i) rest
  end.






(** The tree whose nodes are those of [n], each changed by [g] at its
    position. *)
Fixpoint tree_map (g : list nat -> Node -> Node) (pos : list nat) (n : Node)
  : Node :=
  match children n with
  | None => g pos n
  | Some cs =>
      set_children
        (Some ((fix go (i : nat) (cs : list Node) :=
                  match cs with
                  | [] => []
                  | c :: rest => tree_map g (pos ++ [i]) c :: go (S i) rest
                  end) 0%nat cs))
        (g pos n)
  end.

Fixpoint tree_map_children (g : list nat -> Node -> Node) (pos : list nat)
  (i : nat) (cs : list Node) : list Node :=
  match cs with
  | [] => []
  | c :: rest => tree_map g (pos ++ [i]) c :: tree_map_children g pos (S i) rest
  end.



(** *** Trees the examples are about *)

Definition leaf (name : string) (bytes wastedBytes : Z) : Node :=
  mkNode (Some (str name)) None None bytes wastedBytes None false None None None.

Definition bundle (name : string) (bytes wastedBytes : Z) (children : list Node)
  : Node :=
  mkNode (Some (str name)) None None bytes wastedBytes None false None
    (Some children) None.



(** The leaves of the trees of some root nodes. *)
Definition all_leaves (rootNodes : list RootNode.t) : list Node :=
  concat (map (fun rootNode => leaves (RootNode.node rootNode)) rootNodes).

Definition sum_Z (l : list Z) : Z := foldr Z.add 0%Z l.

(** The elements of a panel that show the view [viewId]. *)
Definition with_viewId (viewId : jsstring) (els : list ViewModeEl)
  : list ViewModeEl :=
  filter (fun el => Treemap.viewId (selector (newMode el)) = Some viewId) els.

(** A mode that selects a root node. *)
Definition rootNodeId_mode (id : jsstring) : Mode :=
  mkMode (mkSelector (str "rootNodeId") id None) (Some pb_bytes) None.

(** What the second block of [createViewModes] does at a leaf. *)
Definition unused_step (l : Node) (acc : Z * list (option jsstring))
  : Z * list (option jsstring) :=
  if (wastedBytes l <? 50 * 1024)%Z then acc
  else ((acc.1 + wastedBytes l)%Z, acc.2 ++ [id l]).

(** The ids of the nodes of a tree, in pre-order. *)
Definition labels (n : Node) : list (option jsstring) :=
  map (fun visit => id visit.1.2) (visits n).

(** A page with every element the viewer looks up, nothing shown yet. *)
Definition blank_page : Page := mkPage (Some None) (Some []) (Some None).

(** A layout that gives every node a DOM element. *)
Definition shown_all : list nat -> Node -> bool := fun _ _ => true.

(** One group, ["scripts"], of one bundle with leaves of 100 and 300
    bytes. *)
Definition two_leaves : TreemapData :=
  [(str "scripts",
    [RootNode.mk (str "https://example.com/bundle.js")
       (bundle "bundle.js" 400 0 [leaf "a.js" 100 0; leaf "b.js" 300 0])])].

Definition two_leaves_mode : Mode :=
  rootNodeId_mode (str "https://example.com/bundle.js").

Definition two_leaves_options : Options :=
  mkOptions (str "https://example.com/") (Some two_leaves) two_leaves_mode.

(** The viewer of [init]: constructed, then shown in the mode of the
    options; [None] when the constructor throws. *)
Definition init_viewer (shown : list nat -> Node -> bool) (options : Options)
  (page : Page) : option Viewer :=
  match constructor options page with
  | inr v => Some (show shown (options_mode options) v).2
  | inl _ => None
  end.

(** The labels of the current root. *)
Definition current_labels (v : option Viewer) : list (option jsstring) :=
  match v with
  | Some v =>
      match currentRootNode v with
      | Some root => labels root
      | None => []
      end
  | None => []
  end.

(** What [setTitle] makes of a node at a position. *)
Definition titled (mode : Mode) (total : option Z) (pos : list nat) (n : Node)
  : Node :=
  set_id
    (Some (title_of mode total (bool_decide (pos = []))
             (default [] (originalId n)) n)) n.

(** [m] keeps [I]: what holds of the viewer before [m] holds after it,
    whether [m] returns or throws. *)
Definition keeps (I : Viewer -> Prop) {A} (m : M A) : Prop :=
  forall v, I v -> I (m v).2.

(** [m] throws only exceptions of [Q]. *)
Definition throws (Q : Exception -> Prop) {A} (m : M A) : Prop :=
  forall v e, (m v).1 = inl e -> Q e.

(** Nothing of what the viewer has rendered differs between [v] and
    [v']: the current root, the [TreeMap], the container, the two panels
    and the hues handed out. *)
Definition same_rendering (v v' : Viewer) : Prop :=
  currentRootNode v' = currentRootNode v /\
  treemap v' = treemap v /\
  el v' = el v /\
  panel_modals (page v') = panel_modals (page v) /\
  panel_datagrid (page v') = panel_datagrid (page v) /\
  getHue v' = getHue v.

(** The root nodes of all groups, in the order [findRootNode] tries
    them. *)
Definition all_rootNodes (v : Viewer) : list RootNode.t :=
  concat (map snd (treemapData v)).

(** The exceptions of a [show] whose selector resolves. *)
Definition show_exception (e : Exception) : Prop :=
  e = TypeError \/
  e = query_not_found (str ".panel--modals") \/
  e = query_not_found (str ".panel--datagrid").

(** The viewer after the first statements of [show], up to the value
    given to the partition selector. *)
Definition after_prologue (mode : Mode) (v : Viewer) : Viewer :=
  let mode := with_partitionBy mode in
  set_page
    (mkPage (Some (partitionBy mode)) (panel_modals (page v))
       (panel_datagrid (page v)))
    (set_mode mode v).

(** The viewer the constructor makes of the two leaves. *)
Definition two_leaves_viewer : Viewer :=
  mkViewer two_leaves_mode
    (map (fun group : jsstring * list RootNode.t => (group.1, map stamp group.2))
       two_leaves)
    None (str "https://example.com/") false NoTreeMap
    (Util.stableHasher Util.COLOR_HUES) blank_page.

(** A mode with the selector type [type] and the value [value]. *)
Definition mode_of (type value : string) : Mode :=
  mkMode (mkSelector (str type) (str value) None) (Some pb_bytes) None.

(** The viewers after each event of a session. *)
Fixpoint states (shown : list nat -> Node -> bool) (events : list Event)
  (v : Viewer) : list Viewer :=
  match events with
  | [] => []
  | e :: events' =>
      let v' := handle shown e v in
      v' :: states shown events' v'
  end.

(** The current root has a DOM element whose background is a hue. *)
Definition root_hued (v : Viewer) : bool :=
  match currentRootNode v with
  | Some root =>
      match dom root with
      | Some style =>
          match backgroundColor style with
          | Some (Util.css_hsl _ _ _) => true
          | _ => false
          end
      | None => false
      end
  | None => false
  end.

(** Eighteen bundles; the ids of the first two have the same sum of
    character codes. *)
Definition eighteen_ids : list string :=
  [ "ab"; "ba"; "c"; "d"; "e"; "f"; "g"; "h"; "i"; "j"; "k"; "l"; "m"; "n";
    "o"; "p"; "q"; "r" ]%string.

Definition eighteen : TreemapData :=
  [(str "scripts",
    map (fun name => RootNode.mk (str name) (bundle name 1 0 [leaf "module.js" 1 0]))
      eighteen_ids)].

Definition eighteen_options : Options :=
  mkOptions (str "https://example.com/") (Some eighteen)
    (rootNodeId_mode (str "ab")).

Definition eighteen_viewer : Viewer :=
  mkViewer (rootNodeId_mode (str "ab"))
    (map (fun group : jsstring * list RootNode.t => (group.1, map stamp group.2))
       eighteen)
    None (str "https://example.com/") false NoTreeMap
    (Util.stableHasher Util.COLOR_HUES) blank_page.

(** One [show] for each of the eighteen bundles. *)
Definition show_each : list Event :=
  map (fun name => Show (rootNodeId_mode (str name))) eighteen_ids.

(** The root shown by a viewer, by its original id, and whether it has
    a hue. *)
Definition shown_root (v : Viewer) : option jsstring * bool :=
  (match currentRootNode v with
   | Some root => originalId root
   | None => None
   end, root_hued v).

(** The precedence list of the examples. *)
Definition b_then_a : list jsstring := [str "b"; str "a"].

(** A property of the viewer that is one of its hasher. *)
Definition on_getHue (J : Util.Hasher float -> Prop) (v : Viewer) : Prop :=
  J (getHue v).

(** The ids of the nodes of a tree in pre-order, by recursion on the
    tree. *)
Fixpoint ids_preorder (n : Node) : list (option jsstring) :=
  id n ::
  match children n with
  | None => []
  | Some cs => concat (map ids_preorder cs)
  end.

(** The ids of the nodes of the current root. *)
Definition root_ids (v : Viewer) : list (option jsstring) :=
  match currentRootNode v with
  | Some root => ids_preorder root
  | None => []
  end.

(** The loop of [attach_dom] over the children. *)
Fixpoint attach_dom_children (shown : list nat -> Node -> bool)
  (pos : list nat) (i : nat) (cs : list Node) : list Node :=
  match cs with
  | [] => []
  | c :: rest =>
      attach_dom shown (pos ++ [i]) c :: attach_dom_children shown pos (S i) rest
  end.

End Spec.
Import Spec.

(** A step that leaves the hasher alone keeps what holds of it. *)
Ltac keep_getHue :=
  let v := fresh "v" in
  let Hv := fresh "Hv" in
  intros v Hv; exact Hv.

(** ** Properties of [Util] *)

Section UtilFacts.
Import Js.

Lemma relative_index_inside (len rel : Z) :
  (0 <= rel <= len)%Z -> relative_index len rel = rel.
Proof.
  intros H. unfold relative_index.
  destruct (rel <? 0)%Z eqn:E; [apply Z.ltb_lt in E; lia | lia].
Qed.

Lemma slice_prefix {A} (s : list A) (n : Z) :
  (0 <= n <= Z.of_nat (length s))%Z -> slice s 0 n = take (Z.to_nat n) s.
Proof.
  intros H. unfold slice.
  rewrite !relative_index_inside by lia.
  simpl. f_equal. lia.
Qed.

(** C5: for a string [s] and a natural number [n], [elide s n] is [s]
    when [s] has at most [n] code units; otherwise it has [n + 1] code
    units, the last one is the ellipsis, and its first [n] are the first
    [n] of [s]. *)
Theorem elide_spec (s : jsstring) (n : Z) :
  (0 <= n)%Z ->
  ((Z.of_nat (length s) <= n)%Z -> Util.elide s n = s) /\
  ((n < Z.of_nat (length s))%Z ->
     Z.of_nat (length (Util.elide s n)) = (n + 1)%Z /\
     last (Util.elide s n) = Some ellipsis /\
     take (Z.to_nat n) (Util.elide s n) = take (Z.to_nat n) s).
Proof.
  intros Hn. unfold Util.elide. split; intros H.
  - destruct (Z.leb_spec (Z.of_nat (length s)) n); [reflexivity | lia].
  - destruct (Z.leb_spec (Z.of_nat (length s)) n); [lia |].
    rewrite slice_prefix by lia.
    assert (Hlen : length (take (Z.to_nat n) s) = Z.to_nat n)
      by (rewrite length_take; lia).
    repeat split.
    + rewrite length_app, Hlen. simpl. lia.
    + apply last_snoc.
    + rewrite take_app_le by lia. rewrite take_ge by lia. reflexivity.
Qed.

Lemma elide_spec_witness :
  (0 <= 3)%Z /\
  Util.elide (str "map") 3 = str "map" /\
  Util.elide (str "treemap") 3 = str "tre" ++ [ellipsis].
Proof.
  split; [lia |].
  pose proof (elide_spec (str "map") 3 ltac:(lia)) as [Hshort _].
  pose proof (elide_spec (str "treemap") 3 ltac:(lia)) as [_ Hlong].
  split; [apply Hshort; simpl; lia | reflexivity].
Defined.







(** The first index at which [a] occurs in [l]. *)
Lemma indexOf_from_found {A} `{EqDecision A} (l : list A) (a : A) (i : Z) (k : nat) :
  first_index l a k -> indexOf_from l a i = (i + Z.of_nat k)%Z.
Proof.
  revert i k. induction l as [| x l IH]; intros i k [Hk Hfirst].
  - destruct k; discriminate.
  - simpl. destruct (decide (x = a)) as [-> | Hne].
    + destruct k as [| k]; [lia |].
      exfalso. apply (Hfirst 0%nat); [lia | reflexivity].
    + destruct k as [| k]; [simpl in Hk; congruence |].
      rewrite (IH (i + 1)%Z k); [lia |].
      split; [exact Hk |].
      intros j Hj. apply (Hfirst (S j)). lia.
Qed.

Lemma indexOf_from_absent {A} `{EqDecision A} (l : list A) (a : A) (i : Z) :
  a ∉ l -> indexOf_from l a i = (-1)%Z.
Proof.
  revert i. induction l as [| x l IH]; intros i Hnot; [reflexivity |].
  simpl. destruct (decide (x = a)) as [-> | Hne].
  - exfalso. apply Hnot. left.
  - apply IH. intros Hin. apply Hnot. right. exact Hin.
Qed.

Section Precedence.
Variable localeCompare : jsstring -> jsstring -> Z.

(** C7, as amended: when both [a] and [b] occur in [precedence], the
    result is the difference of their first indices, negative exactly
    when [a] comes first; when only [a] occurs it is -1, when only
    [b] occurs it is 1; when neither occurs it is the locale
    comparison of [a] and [b].  With the precedence [["b"; "a"]],
    comparing ["a"] with ["b"] gives 1, ["b"] with ["a"] a negative
    number, and ["z"] with ["a"] 1. *)
Theorem sortByPrecedence_spec (precedence : list jsstring) (a b : jsstring) :
  (forall i j : nat,
      first_index precedence a i -> first_index precedence b j ->
      Util.sortByPrecedence localeCompare precedence a b
      = (Z.of_nat i - Z.of_nat j)%Z /\
      ((Util.sortByPrecedence localeCompare precedence a b < 0)%Z
       <-> (i < j)%nat)) /\
  (a ∈ precedence -> b ∉ precedence ->
   Util.sortByPrecedence localeCompare precedence a b = (-1)%Z) /\
  (a ∉ precedence -> b ∈ precedence ->
   Util.sortByPrecedence localeCompare precedence a b = 1%Z) /\
  (a ∉ precedence -> b ∉ precedence ->
   Util.sortByPrecedence localeCompare precedence a b = localeCompare a b) /\
  Util.sortByPrecedence localeCompare b_then_a (str "a") (str "b") = 1%Z /\
  (Util.sortByPrecedence localeCompare b_then_a (str "b") (str "a") < 0)%Z /\
  (Util.sortByPrecedence localeCompare b_then_a (str "z") (str "a") > 0)%Z.
Proof.
assert (Hfound : forall x, x ∈ precedence -> exists k, first_index precedence x k).
{ intros x Hx. induction precedence as [| y l IH]; [inversion Hx |].
  destruct (decide (y = x)) as [-> | Hne].
  - exists 0%nat. split; [reflexivity | intros; lia].
  - apply elem_of_cons in Hx as [-> | Hx]; [congruence |].
    destruct (IH Hx) as [k [Hk Hfirst]]. exists (S k).
    split; [exact Hk |].
    intros [| j] Hj; simpl; [congruence | apply Hfirst; lia]. }
assert (Hidx : forall x k, first_index precedence x k ->
                        indexOf precedence x = Z.of_nat k).
{ intros x k Hk. unfold indexOf.
  rewrite (indexOf_from_found _ _ _ _ Hk). lia. }
assert (Hnone : forall x, x ∉ precedence -> indexOf precedence x = (-1)%Z).
{ intros x Hx. apply indexOf_from_absent. exact Hx. }
unfold Util.sortByPrecedence.
split; [| split; [| split; [| split]]].
- intros i j Hi Hj.
  rewrite (Hidx _ _ Hi), (Hidx _ _ Hj).
  destruct (Z.eqb_spec (Z.of_nat i) (-1)); [lia |].
  destruct (Z.eqb_spec (Z.of_nat j) (-1)); [lia |].
  simpl. split; [reflexivity | lia].
- intros Ha Hb. destruct (Hfound a Ha) as [i Hi].
  rewrite (Hidx _ _ Hi), (Hnone _ Hb).
  destruct (Z.eqb_spec (Z.of_nat i) (-1)); [lia |]. simpl.
  destruct (Z.geb_spec (Z.of_nat i) 0); [reflexivity | lia].
- intros Ha Hb. destruct (Hfound b Hb) as [j Hj].
  rewrite (Hidx _ _ Hj), (Hnone _ Ha).
  destruct (Z.eqb_spec (Z.of_nat j) (-1)); [lia |]. simpl.
  destruct (Z.geb_spec (Z.of_nat j) 0); [reflexivity | lia].
- intros Ha Hb.
  rewrite (Hnone _ Ha), (Hnone _ Hb).
  reflexivity.
- repeat split; reflexivity.
Qed.
End Precedence.

(** C7, as stated, fails: with the precedence [["b"; "a"]], ["a"] has
    index 1 and ["b"] index 0, and the result for ["a"], ["b"] is
    1 - 0, not a negative number. *)
Lemma sortByPrecedence_b_a_positive :
  Util.sortByPrecedence (fun _ _ => 0%Z) [str "b"; str "a"] (str "a") (str "b")
  = 1%Z.
Proof. reflexivity. Qed.

End UtilFacts.

(** ** The hasher *)

Section HasherFacts.
Import Js.
Context {T : Type}.
Implicit Types (h : Util.Hasher T) (hash : option Z).

(** [splice] at a remainder of a non-empty array's length removes
    exactly one element. *)
Lemma splice_one (items : list T) hash :
  items <> [] ->
  exists l1 x l2,
    items = l1 ++ x :: l2 /\
    splice items (rem_index hash (Z.of_nat (length items))) 1 = ([x], l1 ++ l2).
Proof.
  intros Hne.
  assert (Hlen : (0 < Z.of_nat (length items))%Z) by (destruct items; simpl; [congruence | lia]).
  set (len := Z.of_nat (length items)) in *.
  set (a := relative_index len (rem_index hash len)).
  assert (Ha : (0 <= a < len)%Z).
  { subst a. unfold relative_index, rem_index. destruct hash as [z |].
    - pose proof (Z.rem_bound_abs z len ltac:(lia)) as Hb.
      destruct (Z.ltb_spec (Z.rem z len) 0); lia.
    - simpl. lia. }
  destruct (lookup_lt_is_Some_2 items (Z.to_nat a) ltac:(lia)) as [x Hx].
  exists (take (Z.to_nat a) items), x, (drop (S (Z.to_nat a)) items).
  split; [symmetry; apply take_drop_middle; exact Hx |].
  unfold splice. fold len. fold a.
  replace (Z.min (Z.max 1 0) (len - a)) with 1%Z by lia.
  replace (Z.to_nat (a + 1)) with (S (Z.to_nat a)) by lia.
  f_equal.
  change (Z.to_nat 1) with 1%nat.
  rewrite <- (take_drop_middle items (Z.to_nat a) x Hx) at 1.
  rewrite drop_app_length' by (rewrite length_take; lia).
  reflexivity.
Qed.

(** The three ways a call can go. *)
Lemma call_cases hash h :
  (exists x, Util.assignedItems h !! hash = Some x /\ Util.call hash h = (Some x, h)) \/
  (Util.assignedItems h !! hash = None /\ Util.items h = [] /\
   Util.call hash h = (None, h)) \/
  (exists l1 x l2,
      Util.assignedItems h !! hash = None /\
      Util.items h = l1 ++ x :: l2 /\
      Util.call hash h
      = (Some x, Util.mkHasher (l1 ++ l2) (<[hash := x]> (Util.assignedItems h)))).
Proof.
  unfold Util.call.
  destruct (Util.assignedItems h !! hash) as [x |] eqn:Hlook; [left; eauto |].
  right. destruct (Util.items h) as [| y l] eqn:Hitems; [left; auto |].
  right. destruct (splice_one (y :: l) hash ltac:(discriminate)) as (l1 & x & l2 & Heq & Hsp).
  exists l1, x, l2. rewrite Hsp. simpl. auto.
Qed.

Lemma call_accounts_for pool hash h :
  accounts_for pool h -> accounts_for pool (Util.call hash h).2.
Proof.
  unfold accounts_for. intros Hinv.
  destruct (call_cases hash h) as [(x & _ & ->) | [(_ & _ & ->) | (l1 & x & l2 & Hnone & Hitems & ->)]];
    simpl; try exact Hinv.
  rewrite (map_to_list_insert _ _ _ Hnone). rewrite <- Hinv, Hitems.
  rewrite fmap_cons. simpl.
  rewrite <- !Permutation_middle. reflexivity.
Qed.











End HasherFacts.

Section HasherMap.
Import Js.
Context {A B : Type} (f : A -> B).



End HasherMap.

Section StableHasher.
Import Js.
Context {T : Type}.





Lemma stableHasher_accounts_for (pool : list T) :
  accounts_for pool (Util.stableHasher pool).
Proof.
  unfold accounts_for, Util.stableHasher. simpl.
  rewrite map_to_list_empty. reflexivity.
Qed.

End StableHasher.

Section StableHasherSpec.
Import Js.
Context {T : Type}.


End StableHasherSpec.

(** ** The depth-first visitor *)

Section DfsFacts.
Import Js Treemap.
Context {S : Type}.
Variable fn : list nat -> Node -> option jsstring -> S -> (Exception + Node) * S.

Lemma set_children_same (n : Node) : set_children (children n) n = n.
Proof. destruct n; reflexivity. Qed.

(** One step of [dfs], with the loop over the children by name. *)
Lemma dfs_unfold (pos : list nat) (node : Node) (fullId : option jsstring) (s : S) :
  dfs fn pos node fullId s =
  let fullId := extend_fullId fullId node in
  match fn pos node fullId s with
  | (inl e, s) => (node, s, Some e)
  | (inr node', s) =>
      match children node with
      | None => (node', s, None)
      | Some cs =>
          let '(cs', s, e) := dfs_children fn pos fullId 0 cs s in
          (set_children (Some cs') node', s, e)
      end
  end.
Proof.
  destruct node as [i o h b w t d z cs dm]. simpl.
  destruct (fn pos _ _ s) as [[e | node'] s']; [reflexivity |].
  destruct cs as [cs |]; [| reflexivity].
  match goal with
  | |- context [?F 0%nat cs s'] =>
      assert (Heq : forall l k s0, F k l s0 = dfs_children fn pos (extend_fullId fullId (mkNode i o h b w t d z (Some cs) dm)) k l s0)
  end.
  { induction l as [| c l IH]; intros k s0; [reflexivity |].
    simpl. destruct (dfs fn (pos ++ [k]) c _ s0) as [[c' s1] [e |]]; [reflexivity |].
    rewrite IH. reflexivity. }
  rewrite Heq. reflexivity.
Qed.

(** What holds of the state before a visit and is kept by every call of
    the callback holds after the visit. *)
Lemma dfs_state_inv (I : S -> Prop) :
  (forall pos n f s, I s -> I (fn pos n f s).2) ->
  forall n pos f s, I s -> I (dfs fn pos n f s).1.2.
Proof.
  intros Hfn n. induction n as [n IH] using Node_children_ind.
  intros pos f s Hs. rewrite dfs_unfold. simpl.
  specialize (Hfn pos n (extend_fullId f n) s Hs).
  destruct (fn pos n _ s) as [[e | n'] s1]; simpl in *; [exact Hfn |].
  destruct (children n) as [cs |] eqn:Hcs; [| exact Hfn].
  specialize (IH cs eq_refl).
  assert (Hloop : forall k s0, I s0 ->
            I (dfs_children fn pos (extend_fullId f n) k cs s0).1.2).
  { clear Hcs. induction IH as [| c l Hc _ IHl]; intros k s0 Hs0; [exact Hs0 |].
    simpl. specialize (Hc (pos ++ [k]) (extend_fullId f n) s0 Hs0).
    destruct (dfs fn (pos ++ [k]) c _ s0) as [[c' s2] [e |]]; simpl in *; [exact Hc |].
    specialize (IHl (Datatypes.S k) s2 Hc).
    destruct (dfs_children fn pos _ (Datatypes.S k) l s2) as [[l' s3] e]. exact IHl. }
  specialize (Hloop 0%nat s1 Hfn).
  destruct (dfs_children fn pos _ 0 cs s1) as [[cs' s2] e]. exact Hloop.
Qed.

(** An exception that ends a visit is one the callback threw. *)
Lemma dfs_exception (Q : Exception -> Prop) :
  (forall pos n f s e, (fn pos n f s).1 = inl e -> Q e) ->
  forall n pos f s e, (dfs fn pos n f s).2 = Some e -> Q e.
Proof.
  intros Hfn n. induction n as [n IH] using Node_children_ind.
  intros pos f s e. rewrite dfs_unfold. simpl.
  specialize (Hfn pos n (extend_fullId f n) s).
  destruct (fn pos n _ s) as [[e0 | n'] s1]; simpl in *.
  { intros [= <-]. apply Hfn. reflexivity. }
  destruct (children n) as [cs |] eqn:Hcs; [| discriminate].
  specialize (IH cs eq_refl).
  assert (Hloop : forall k s0,
            (dfs_children fn pos (extend_fullId f n) k cs s0).2 = Some e -> Q e).
  { clear Hcs. induction IH as [| c l Hc _ IHl]; intros k s0; [discriminate |].
    simpl. specialize (Hc (pos ++ [k]) (extend_fullId f n) s0 e).
    destruct (dfs fn (pos ++ [k]) c _ s0) as [[c' s2] [e1 |]]; simpl in *; [exact Hc |].
    specialize (IHl (Datatypes.S k) s2).
    destruct (dfs_children fn pos _ (Datatypes.S k) l s2) as [[l' s3] e1]. exact IHl. }
  specialize (Hloop 0%nat s1).
  destruct (dfs_children fn pos _ 0 cs s1) as [[cs' s2] e1]. exact Hloop.
Qed.

End DfsFacts.

Section VisitFacts.
Import Js Treemap.

Lemma visit_list_unfold (pos : list nat) (n : Node) (f : option jsstring) :
  visit_list pos n f =
  (pos, n, extend_fullId f n) ::
  match children n with
  | None => []
  | Some cs => visit_list_children pos (extend_fullId f n) 0 cs
  end.
Proof.
  destruct n as [i o h b w t d z cs dm]. simpl. f_equal.
  destruct cs as [cs |]; [| reflexivity].
  generalize 0%nat. induction cs as [| c l IH]; intros k; [reflexivity |].
  simpl. rewrite IH. reflexivity.
Qed.


(** The callback that records its calls is called as [visit_list]
    says, and leaves the tree as it is. *)
Lemma dfs_record (n : Node) :
  forall pos f log,
    dfs record_visit pos n f log = (n, log ++ visit_list pos n f, None).
Proof.
  induction n as [n IH] using Node_children_ind. intros pos f log.
  rewrite dfs_unfold, visit_list_unfold. simpl.
  destruct (children n) as [cs |] eqn:Hcs; [| reflexivity].
  specialize (IH cs eq_refl).
  assert (Hloop : forall k log0,
            dfs_children record_visit pos (extend_fullId f n) k cs log0
            = (cs, log0 ++ visit_list_children pos (extend_fullId f n) k cs, None)).
  { clear Hcs. induction IH as [| c l Hc _ IHl]; intros k log0.
    - simpl. rewrite app_nil_r. reflexivity.
    - simpl. rewrite Hc, IHl, <- app_assoc. reflexivity. }
  rewrite Hloop, <- Hcs, set_children_same, <- app_assoc. reflexivity.
Qed.

Lemma visits_visit_list (n : Node) : visits n = visit_list [] n (Some []).
Proof. unfold visits, dfs_root. rewrite dfs_record. reflexivity. Qed.






End VisitFacts.

Section PreorderFacts.
Import Js Treemap.








End PreorderFacts.

(** ** The view modes *)

Section ViewModeFacts.
Import Js Treemap.

(** A callback that looks at leaves only, and changes nothing but its
    state, folds its step over the leaves. *)
Lemma dfs_leaf_fold {S} (fn : list nat -> Node -> option jsstring -> S -> (Exception + Node) * S)
  (step : Node -> S -> S) :
  (forall pos n f s,
      fn pos n f s
      = (inr n, match children n with Some _ => s | None => step n s end)) ->
  forall n pos f s,
    dfs fn pos n f s = (n, fold_left (fun s l => step l s) (leaves n) s, None).
Proof.
  intros Hfn n. induction n as [n IH] using Node_children_ind. intros pos f s.
  rewrite dfs_unfold. simpl. rewrite Hfn.
  assert (Hleaves : leaves n = match children n with
                               | None => [n]
                               | Some cs => concat (map leaves cs)
                               end) by (destruct n; reflexivity).
  rewrite Hleaves.
  destruct (children n) as [cs |] eqn:Hcs; [| reflexivity].
  specialize (IH cs eq_refl).
  assert (Hloop : forall k s0,
            dfs_children fn pos (extend_fullId f n) k cs s0
            = (cs, fold_left (fun s l => step l s) (concat (map leaves cs)) s0, None)).
  { clear Hcs Hleaves. induction IH as [| c l Hc _ IHl]; intros k s0; [reflexivity |].
    simpl. rewrite Hc, IHl, fold_left_app. reflexivity. }
  rewrite Hloop, <- Hcs, set_children_same. reflexivity.
Qed.

Lemma over_rootNodes_leaf_fold {S} fn (step : Node -> S -> S) :
  (forall pos n f s,
      fn pos n f s
      = (inr n, match children n with Some _ => s | None => step n s end)) ->
  forall rootNodes s,
    over_rootNodes fn (fun _ => true) rootNodes s
    = fold_left (fun s l => step l s) (all_leaves rootNodes) s.
Proof.
  intros Hfn rootNodes. unfold over_rootNodes, all_leaves.
  induction rootNodes as [| r l IH]; intros s; [reflexivity |].
  simpl. unfold dfs_root. rewrite (dfs_leaf_fold fn step Hfn).
  simpl. rewrite IH, fold_left_app. reflexivity.
Qed.

Lemma unused_fold (ls : list Node) (acc : Z * list (option jsstring)) :
  let big := filter (fun l => (51200 <= wastedBytes l)%Z) ls in
  fold_left (fun s l => unused_step l s) ls acc
  = ((acc.1 + sum_Z (wastedBytes <$> big))%Z, acc.2 ++ (id <$> big)).
Proof.
  revert acc. induction ls as [| l ls IH]; intros [b ids]; simpl.
  - rewrite Z.add_0_r, app_nil_r. reflexivity.
  - rewrite IH. unfold unused_step. simpl. rewrite filter_cons.
    destruct (Z.ltb_spec (wastedBytes l) (50 * 1024)).
    + rewrite decide_False by lia. reflexivity.
    + rewrite decide_True by lia. simpl. rewrite <- app_assoc. simpl.
      f_equal. rewrite <- Z.add_assoc. reflexivity.
Qed.

Lemma sum_big_pos (ls : list Node) :
  let big := filter (fun l => (51200 <= wastedBytes l)%Z) ls in
  (0 <= sum_Z (wastedBytes <$> big))%Z /\
  (sum_Z (wastedBytes <$> big) = 0%Z <-> big = []).
Proof.
  simpl. induction ls as [| l ls [IH1 IH2]]; [simpl; split; [lia | tauto] |].
  rewrite filter_cons. destruct (decide (51200 <= wastedBytes l)%Z); [| auto].
  rewrite fmap_cons. simpl.
  set (rest := sum_Z _) in *.
  split; [lia |]. split; [lia | discriminate].
Qed.

End ViewModeFacts.

Section UnusedViewMode.
Import Js Treemap.

Lemma unused_totals_leaves (rootNodes : list RootNode.t) :
  let big := filter (fun l => (51200 <= wastedBytes l)%Z) (all_leaves rootNodes) in
  unused_totals rootNodes = (sum_Z (wastedBytes <$> big), id <$> big).
Proof.
  unfold unused_totals.
  rewrite (over_rootNodes_leaf_fold unused_fn unused_step).
  - rewrite unused_fold. reflexivity.
  - intros pos n f s. unfold unused_fn, unused_step.
    destruct (children n); [reflexivity |].
    destruct (wastedBytes n <? 50 * 1024)%Z; reflexivity.
Qed.

Lemma with_viewId_makeViewMode (viewId' viewId name : jsstring) currentMode pb hl :
  with_viewId viewId' [makeViewMode currentMode viewId name pb hl]
  = if decide (viewId = viewId')
    then [makeViewMode currentMode viewId name pb hl] else [].
Proof.
  unfold with_viewId. rewrite filter_cons, filter_nil. simpl.
  destruct (decide (viewId = viewId')) as [-> | Hne].
  - rewrite decide_True by reflexivity. reflexivity.
  - rewrite decide_False by congruence. reflexivity.
Qed.

Lemma with_viewId_app (viewId : jsstring) (l1 l2 : list ViewModeEl) :
  with_viewId viewId (l1 ++ l2) = with_viewId viewId l1 ++ with_viewId viewId l2.
Proof. apply filter_app. Qed.

(** C4: the second block of [createViewModes] sums the wasted bytes of
    the leaves with at least 50 KiB (51200) of them and collects the ids
    of those leaves; the panel gets an element for the view
    ["unused-js"], labelled with the formatted sum and carrying those
    ids as its highlight set, exactly when the sum is greater than
    zero.  One leaf with 60 * 1024 wasted bytes gives the element
    ["Unused JS (60 KB)"]; one leaf with 10 * 1024 gives none. *)
Theorem unused_view_mode_spec (rootNodes : list RootNode.t) (currentMode : Mode) :
  let big := filter (fun l => (51200 <= wastedBytes l)%Z) (all_leaves rootNodes) in
  let total := sum_Z (wastedBytes <$> big) in
  let offered := with_viewId (str "unused-js") (viewModeEls rootNodes currentMode) in
  unused_totals rootNodes = (total, id <$> big) /\
  ((0 < total)%Z ->
   offered
   = [makeViewMode currentMode (str "unused-js")
        (str "Unused JS (" ++ Util.formatBytes (inject_Z total) ++ str ")")
        pb_wastedBytes (Some (id <$> big))]) /\
  (~ (0 < total)%Z -> offered = []) /\
  (forall v,
      is_Some (panel_modals (page v)) ->
      (createViewModes rootNodes currentMode v).1 = inr tt /\
      panel_modals (page (createViewModes rootNodes currentMode v).2)
      = Some (viewModeEls rootNodes currentMode)) /\
  innerText <$>
    with_viewId (str "unused-js")
      (viewModeEls [RootNode.mk (str "a.js") (leaf "a.js" (60 * 1024) (60 * 1024))]
         (rootNodeId_mode (str "a.js")))
  = [str "Unused JS (60 KB)"] /\
  with_viewId (str "unused-js")
    (viewModeEls [RootNode.mk (str "a.js") (leaf "a.js" (10 * 1024) (10 * 1024))]
       (rootNodeId_mode (str "a.js")))
  = [].
Proof.
  intros big total offered.
  pose proof (unused_totals_leaves rootNodes) as Htot. simpl in Htot.
  fold big in Htot. fold total in Htot.
  pose proof (sum_big_pos (all_leaves rootNodes)) as [Hpos Hzero].
  fold big in Hpos, Hzero. fold total in Hpos, Hzero.
  assert (Hoffered :
            offered
            = if (total =? 0)%Z then []
              else [makeViewMode currentMode (str "unused-js")
                      (str "Unused JS (" ++ Util.formatBytes (inject_Z total) ++ str ")")
                      pb_wastedBytes (Some (id <$> big))]).
  { subst offered. unfold viewModeEls. rewrite Htot.
    rewrite !with_viewId_app.
    destruct (over_rootNodes large_fn is_bundle rootNodes (0%Z, [])) as [b1 h1].
    destruct (over_rootNodes duplicate_fn is_bundle rootNodes (0%Q, [])) as [b2 h2].
    destruct (total =? 0)%Z, (b1 =? 0)%Z, (Qeq_bool b2 0);
      rewrite ?with_viewId_makeViewMode; reflexivity. }
  split; [exact Htot |].
  split.
  { intros Hgt. rewrite Hoffered.
    destruct (Z.eqb_spec total 0); [lia | reflexivity]. }
  split.
  { intros Hle. rewrite Hoffered.
    destruct (Z.eqb_spec total 0); [reflexivity | lia]. }
  split; [| split; reflexivity].
  intros v [els Hels]. unfold createViewModes.
  unfold mbind, M_bind, bind, get, modify. simpl. rewrite Hels. simpl. auto.
Qed.

End UnusedViewMode.

(** ** The labels *)

Section TreeMapFacts.
Import Js Treemap.

Lemma tree_map_unfold g (pos : list nat) (n : Node) :
  tree_map g pos n =
  match children n with
  | None => g pos n
  | Some cs => set_children (Some (tree_map_children g pos 0 cs)) (g pos n)
  end.
Proof.
  destruct n as [i o h b w t d z cs dm]. simpl.
  destruct cs as [cs |]; [| reflexivity]. f_equal. f_equal.
  generalize 0%nat. induction cs as [| c l IH]; intros k; [reflexivity |].
  simpl. rewrite IH. reflexivity.
Qed.

Lemma tree_map_children_lookup g (pos : list nat) (cs : list Node) :
  forall (k i : nat),
    tree_map_children g pos k cs !! i
    = tree_map g (pos ++ [(k + i)%nat]) <$> cs !! i.
Proof.
  induction cs as [| c l IH]; intros k i; [reflexivity |].
  destruct i as [| i]; simpl.
  - rewrite Nat.add_0_r. reflexivity.
  - rewrite IH. replace (Datatypes.S k + i)%nat with (k + Datatypes.S i)%nat by lia.
    reflexivity.
Qed.

(** A callback that only changes the node it is given, by [g] at its
    position, leaves the tree changed by [g] everywhere. *)
Lemma dfs_tree_map {S}
  (fn : list nat -> Node -> option jsstring -> S -> (Exception + Node) * S) g :
  forall n pos f s,
    (forall q m f' s', node_at n q = Some m ->
                       fn (pos ++ q) m f' s' = (inr (g (pos ++ q) m), s')) ->
    dfs fn pos n f s = (tree_map g pos n, s, None).
Proof.
  intros n. induction n as [n IH] using Node_children_ind. intros pos f s Hfn.
  rewrite dfs_unfold, tree_map_unfold. simpl.
  pose proof (Hfn [] n (extend_fullId f n) s eq_refl) as Hroot.
  rewrite app_nil_r in Hroot. rewrite Hroot.
  destruct (children n) as [cs |] eqn:Hcs; [| reflexivity].
  specialize (IH cs eq_refl).
  assert (Hloop : forall k s0,
            (forall (i : nat) c, cs !! i = Some c ->
               forall q m f' s', node_at c q = Some m ->
                 fn ((pos ++ [(k + i)%nat]) ++ q) m f' s'
                 = (inr (g ((pos ++ [(k + i)%nat]) ++ q) m), s')) ->
            dfs_children fn pos (extend_fullId f n) k cs s0
            = (tree_map_children g pos k cs, s0, None)).
  { clear Hcs Hfn Hroot. induction IH as [| c l Hc _ IHl]; intros k s0 Hk; [reflexivity |].
    simpl. rewrite Hc.
    - rewrite IHl; [reflexivity |].
      intros i c' Hi. specialize (Hk (Datatypes.S i) c' Hi).
      replace (k + Datatypes.S i)%nat with (Datatypes.S k + i)%nat in Hk by lia. exact Hk.
    - specialize (Hk 0%nat c eq_refl). rewrite Nat.add_0_r in Hk. exact Hk. }
  rewrite Hloop; [reflexivity |].
  intros i c Hi q m f' s' Hm. rewrite <- app_assoc. apply Hfn.
  simpl. rewrite Hcs, Hi. exact Hm.
Qed.

(** The node at a position of the changed tree is the node that was
    there, changed. *)
Lemma tree_map_node_at g :
  (forall p m, children (g p m) = children m) ->
  forall q n pos,
    node_at (tree_map g pos n) q = tree_map g (pos ++ q) <$> node_at n q.
Proof.
  intros Hg q. induction q as [| i q IH]; intros n pos.
  - simpl. rewrite app_nil_r. reflexivity.
  - simpl. rewrite (tree_map_unfold g pos n).
    destruct (children n) as [cs |] eqn:Hcs.
    + destruct (g pos n); simpl.
      rewrite tree_map_children_lookup. simpl.
      destruct (cs !! i) as [c |]; [| reflexivity]. simpl.
      rewrite IH, <- app_assoc. reflexivity.
    + rewrite Hg, Hcs. reflexivity.
Qed.

Lemma tree_map_id g (pos : list nat) (n : Node) :
  id (tree_map g pos n) = id (g pos n).
Proof.
  rewrite tree_map_unfold. destruct (children n); [| reflexivity].
  destruct (g pos n); reflexivity.
Qed.

End TreeMapFacts.

(** ** Reasoning about the methods *)

Section MonadFacts.
Import Js Treemap.
Context {A B : Type}.

Lemma bind_run (m : M A) (k : A -> M B) (v : Viewer) :
  (m ≫= k) v =
  match m v with
  | (inl e, v') => (inl e, v')
  | (inr a, v') => k a v'
  end.
Proof. reflexivity. Qed.

Lemma keeps_bind (I : Viewer -> Prop) (m : M A) (k : A -> M B) :
  keeps I m -> (forall a, keeps I (k a)) -> keeps I (m ≫= k).
Proof.
  intros Hm Hk v Hv. rewrite bind_run. specialize (Hm v Hv).
  destruct (m v) as [[e | a] v']; [exact Hm |]. apply Hk. exact Hm.
Qed.

Lemma throws_bind (Q : Exception -> Prop) (m : M A) (k : A -> M B) :
  throws Q m -> (forall a, throws Q (k a)) -> throws Q (m ≫= k).
Proof.
  intros Hm Hk v e. rewrite bind_run. specialize (Hm v).
  destruct (m v) as [[e0 | a] v'].
  - intros [= <-]. apply Hm. reflexivity.
  - apply Hk.
Qed.

Lemma keeps_throw (I : Viewer -> Prop) (e : Exception) : keeps I (throw (A:=A) e).
Proof. intros v Hv. exact Hv. Qed.

Lemma throws_throw (Q : Exception -> Prop) (e : Exception) :
  Q e -> throws Q (throw (A:=A) e).
Proof. intros He v e' [= <-]. exact He. Qed.

Lemma keeps_ret (I : Viewer -> Prop) (a : A) : keeps I (mret a).
Proof. intros v Hv. exact Hv. Qed.

Lemma throws_ret (Q : Exception -> Prop) (a : A) : throws Q (mret a).
Proof. intros v e. discriminate. Qed.
End MonadFacts.

Section MonadFacts2.
Import Js Treemap.

Lemma keeps_get (I : Viewer -> Prop) : keeps I get.
Proof. intros v Hv. exact Hv. Qed.

Lemma throws_get (Q : Exception -> Prop) : throws Q get.
Proof. intros v e. discriminate. Qed.

Lemma keeps_modify (I : Viewer -> Prop) (f : Viewer -> Viewer) :
  (forall v, I v -> I (f v)) -> keeps I (modify f).
Proof. intros Hf v Hv. apply Hf. exact Hv. Qed.

Lemma throws_modify (Q : Exception -> Prop) (f : Viewer -> Viewer) :
  throws Q (modify f).
Proof. intros v e. discriminate. Qed.

Lemma throws_weaken {A} (Q Q' : Exception -> Prop) (m : M A) :
  (forall e, Q e -> Q' e) -> throws Q m -> throws Q' m.
Proof. intros HQ Hm v e He. apply HQ. exact (Hm v e He). Qed.
End MonadFacts2.

Section MethodFacts.
Import Js Treemap.
Variable shown : list nat -> Node -> bool.

(** A property of the hasher that every call keeps. *)
Variable J : Util.Hasher float -> Prop.
Hypothesis J_call : forall hash h, J h -> J (Util.call hash h).2.

Lemma createViewModes_keeps rootNodes mode : keeps (on_getHue J) (createViewModes rootNodes mode).
Proof.
  unfold createViewModes. apply keeps_bind; [apply keeps_get |]. intros v.
  destruct (panel_modals (page v)); [| apply keeps_throw].
  apply keeps_modify. keep_getHue.
Qed.

Lemma createTable_keeps rootNodes : keeps (on_getHue J) (createTable rootNodes).
Proof.
  unfold createTable. apply keeps_bind; [apply keeps_get |]. intros v.
  destruct (panel_datagrid (page v)); [| apply keeps_throw].
  apply keeps_modify. keep_getHue.
Qed.

Lemma setTitle_keeps : keeps (on_getHue J) setTitle.
Proof.
  unfold setTitle. apply keeps_bind; [apply keeps_get |]. intros v.
  destruct (currentRootNode v) as [root |]; [| apply keeps_throw].
  destruct (dfs_root _ root tt) as [[root' u] e].
  apply keeps_bind; [apply keeps_modify; keep_getHue |]. intros _.
  destruct e; [apply keeps_throw | apply keeps_ret].
Qed.

Lemma createViewModes_throws rootNodes mode :
  throws show_exception (createViewModes rootNodes mode).
Proof.
  unfold createViewModes. apply throws_bind; [apply throws_get |]. intros v.
  destruct (panel_modals (page v)); [apply throws_modify |].
  apply throws_throw. right. left. reflexivity.
Qed.

Lemma createTable_throws rootNodes : throws show_exception (createTable rootNodes).
Proof.
  unfold createTable. apply throws_bind; [apply throws_get |]. intros v.
  destruct (panel_datagrid (page v)); [apply throws_modify |].
  apply throws_throw. right. right. reflexivity.
Qed.

Lemma setTitle_throws : throws show_exception setTitle.
Proof.
  unfold setTitle. apply throws_bind; [apply throws_get |]. intros v.
  destruct (currentRootNode v) as [root |]; [| apply throws_throw; left; reflexivity].
  pose proof (dfs_exception (setTitle_fn (mode v) (metric (partition_key (mode v)) root))
                (fun e => e = TypeError)) as Hdfs.
  unfold dfs_root.
  destruct (dfs _ [] root (Some []) tt) as [[root' u] e] eqn:Hrun.
  apply throws_bind; [apply throws_modify |]. intros _.
  destruct e as [e |]; [| apply throws_ret].
  apply throws_throw. left.
  apply (Hdfs ltac:(intros pos n f s e0; unfold setTitle_fn;
                     destruct (originalId n); simpl; congruence)
           root [] (Some []) tt).
  rewrite Hrun. reflexivity.
Qed.

Lemma updateColors_fn_no_throw mode pos n f s :
  exists n', (updateColors_fn mode pos n f s).1 = inr n'.
Proof.
  unfold updateColors_fn.
  destruct (dom n); [| eauto].
  destruct (highlightNodeIds mode).
  - destruct (includes _ _); eauto.
  - destruct (Util.call (idHash n) s) as [[hue |] s']; eauto.
Qed.

Lemma updateColors_throws : throws show_exception updateColors.
Proof.
  unfold updateColors. apply throws_bind; [apply throws_get |]. intros v.
  destruct (currentRootNode v) as [root |]; [| apply throws_throw; left; reflexivity].
  pose proof (dfs_exception (updateColors_fn (mode v)) (fun _ => False)) as Hdfs.
  unfold dfs_root.
  destruct (dfs _ [] root (Some []) (getHue v)) as [[root' h] e] eqn:Hrun.
  apply throws_bind; [apply throws_modify |]. intros _.
  destruct e as [e |]; [| apply throws_ret].
  exfalso.
  apply (Hdfs ltac:(intros pos n f s e0 He;
                     destruct (updateColors_fn_no_throw (mode v) pos n f s) as [n' Hn'];
                     congruence)
           root [] (Some []) (getHue v) e).
  rewrite Hrun. reflexivity.
Qed.

Lemma render_throws : throws show_exception (render shown).
Proof.
  unfold render. apply throws_bind; [apply throws_get |]. intros v.
  apply throws_bind; [| intros _; apply updateColors_throws].
  destruct (treemap v), (currentRootNode v);
    first [apply throws_modify | apply throws_throw; left; reflexivity].
Qed.

Lemma present_throws mode : throws show_exception (present mode).
Proof.
  unfold present.
  apply throws_bind; [apply throws_modify |]. intros _.
  apply throws_bind; [apply setTitle_throws |]. intros _.
  apply throws_bind; [apply throws_modify |]. intros _.
  apply throws_modify.
Qed.

Lemma updateColors_run (v : Viewer) :
  updateColors v =
  match currentRootNode v with
  | None => (inl TypeError, v)
  | Some root =>
      let '(root', h, e) := dfs_root (updateColors_fn (mode v)) root (getHue v) in
      (match e with Some e => inl e | None => inr tt end,
       set_getHue h (set_currentRootNode (Some root') v))
  end.
Proof.
  unfold updateColors, mbind, M_bind, bind, get, modify. simpl.
  destruct (currentRootNode v) as [root |]; [| reflexivity].
  destruct (dfs_root _ root (getHue v)) as [[root' h] [e |]]; reflexivity.
Qed.

Lemma updateColors_fn_keeps mode pos n f s :
  J s -> J (updateColors_fn mode pos n f s).2.
Proof.
  intros Hs. unfold updateColors_fn.
  destruct (dom n); [| exact Hs].
  destruct (highlightNodeIds mode); [destruct (includes _ _); exact Hs |].
  pose proof (J_call (idHash n) s Hs) as Hc.
  destruct (Util.call (idHash n) s) as [[hue |] s']; exact Hc.
Qed.

Lemma updateColors_keeps : keeps (on_getHue J) updateColors.
Proof.
  intros v Hv. rewrite updateColors_run.
  destruct (currentRootNode v) as [root |]; [| exact Hv].
  pose proof (dfs_state_inv (updateColors_fn (mode v)) J
                (updateColors_fn_keeps (mode v)) root [] (Some []) (getHue v) Hv)
    as Hdfs.
  unfold dfs_root.
  destruct (dfs _ [] root (Some []) (getHue v)) as [[root' h] e]. exact Hdfs.
Qed.

Lemma render_keeps : keeps (on_getHue J) (render shown).
Proof.
  unfold render. apply keeps_bind; [apply keeps_get |]. intros v.
  apply keeps_bind; [| intros _; apply updateColors_keeps].
  destruct (treemap v), (currentRootNode v);
    first [apply keeps_modify; keep_getHue | apply keeps_throw].
Qed.

Lemma present_keeps mode : keeps (on_getHue J) (present mode).
Proof.
  unfold present.
  apply keeps_bind.
  { apply keeps_modify. intros v Hv. destruct (currentRootNode v); exact Hv. }
  intros _.
  apply keeps_bind; [apply setTitle_keeps |]. intros _.
  apply keeps_bind; [apply keeps_modify; keep_getHue |]. intros _.
  apply keeps_modify; keep_getHue.
Qed.

Lemma show_keeps mode : keeps (on_getHue J) (show shown mode).
Proof.
  unfold show. apply keeps_bind; [| intros _; apply render_keeps].
  unfold rebuild.
  apply keeps_bind; [apply keeps_modify; keep_getHue |]. intros _.
  apply keeps_bind; [apply keeps_get |]. intros v.
  apply keeps_bind.
  { destruct (partition_selector (page v));
      [apply keeps_modify; keep_getHue | apply keeps_throw]. }
  intros _.
  apply keeps_bind; [| intros _; apply present_keeps].
  destruct (decide _).
  - unfold select_group. apply keeps_bind; [apply keeps_get |]. intros v1.
    destruct (group_lookup _ _); [| apply keeps_throw].
    apply keeps_bind; [apply keeps_modify; keep_getHue |]. intros _.
    apply keeps_bind; [apply createViewModes_keeps |]. intros _.
    apply createTable_keeps.
  - destruct (decide _); [| apply keeps_throw].
    unfold select_rootNode. apply keeps_bind; [apply keeps_get |]. intros v1.
    destruct (findRootNode _ _); [| apply keeps_throw].
    apply keeps_bind; [apply keeps_modify; keep_getHue |]. intros _.
    apply keeps_bind; [apply createViewModes_keeps |]. intros _.
    apply createTable_keeps.
Qed.

(** Every handler of a session keeps the property. *)
Lemma session_keeps (events : list (Event)) (v : Viewer) :
  on_getHue J v -> on_getHue J (session shown events v).
Proof.
  unfold session. revert v. induction events as [| e events IH]; intros v Hv; [exact Hv |].
  simpl. apply IH. destruct e as [mode | |]; simpl.
  - apply show_keeps. exact Hv.
  - apply render_keeps. exact Hv.
  - apply updateColors_keeps. exact Hv.
Qed.

End MethodFacts.

(** ** The errors of [show] *)

Section ShowErrors.
Import Js Treemap.
Variable shown : list nat -> Node -> bool.

Lemma with_partitionBy_selector (mode : Mode) :
  selector (with_partitionBy mode) = selector mode.
Proof. unfold with_partitionBy. destruct (partitionBy mode); reflexivity. Qed.

(** [show] is [rebuild], then [render] when [rebuild] returns. *)
Lemma show_run (mode : Mode) (v : Viewer) :
  show shown mode v =
  match rebuild mode v with
  | (inl e, v') => (inl e, v')
  | (inr _, v') => render shown v'
  end.
Proof. reflexivity. Qed.

(** [rebuild], past the lookup of the partition selector. *)
Lemma rebuild_prologue (mode : Mode) (v : Viewer) :
  is_Some (partition_selector (page v)) ->
  rebuild mode v
  = ((if decide (type (selector mode) = str "group")
      then select_group (with_partitionBy mode)
      else if decide (type (selector mode) = str "rootNodeId")
           then select_rootNode (with_partitionBy mode)
           else throw (Error (str "invalid mode selector")));;
     present (with_partitionBy mode)) (after_prologue mode v).
Proof.
  intros [ps Hps]. unfold rebuild. rewrite with_partitionBy_selector.
  unfold mbind, M_bind, bind, modify, get. simpl. rewrite Hps. reflexivity.
Qed.

Lemma rebuild_no_partition_selector (mode : Mode) (v : Viewer) :
  partition_selector (page v) = None ->
  rebuild mode v
  = (inl (query_not_found (str ".partition-selector")),
     set_mode (with_partitionBy mode) v).
Proof.
  intros Hps. unfold rebuild.
  unfold mbind, M_bind, bind, modify, get. simpl. rewrite Hps. reflexivity.
Qed.

Lemma after_prologue_same (mode : Mode) (v : Viewer) :
  same_rendering v (after_prologue mode v).
Proof. repeat split. Qed.

Lemma findRootNode_None (id : jsstring) (v : Viewer) :
  findRootNode id v = None
  <-> forall rootNode, rootNode ∈ all_rootNodes v -> RootNode.id rootNode <> id.
Proof.
  unfold findRootNode, all_rootNodes.
  induction (concat (map snd (treemapData v))) as [| r l IH].
  - split; [intros _ r Hr; inversion Hr | reflexivity].
  - rewrite filter_cons. destruct (decide (RootNode.id r = id)) as [He | Hne].
    + simpl. split; [discriminate |].
      intros Hall. exfalso. apply (Hall r); [left | exact He].
    + rewrite IH. split.
      * intros Hall r' Hr'. apply elem_of_cons in Hr' as [-> | Hr']; auto.
      * intros Hall r' Hr'. apply Hall. right. exact Hr'.
Qed.

(** Once the root node is found, [show] can only throw what its later
    steps throw. *)
Lemma select_rootNode_found (mode : Mode) (v : Viewer) (rootNode : RootNode.t) :
  findRootNode (value (selector mode)) v = Some rootNode ->
  forall e,
    (((select_rootNode mode;; present mode);; render shown) v).1 = inl e ->
    show_exception e.
Proof.
  intros Hfind e. unfold select_rootNode.
  rewrite !bind_run. simpl. rewrite Hfind. simpl.
  pose proof (throws_bind show_exception
                ((createViewModes [rootNode] mode;; createTable [rootNode]);;
                 present mode)
                (fun _ => render shown)) as Hthrows.
  intros He. eapply Hthrows; [| intros _; apply render_throws | exact He].
  apply throws_bind; [| intros _; apply present_throws].
  apply throws_bind; [apply createViewModes_throws |].
  intros _. apply createTable_throws.
Qed.

Lemma show_exception_not_unknown :
  ~ show_exception (Error (str "unknown root node")).
Proof.
  intros [H | [H | H]]; vm_compute in H; discriminate.
Qed.

Lemma show_exception_not_invalid :
  ~ show_exception (Error (str "invalid mode selector")).
Proof.
  intros [H | [H | H]]; vm_compute in H; discriminate.
Qed.

(** C3: on a page that has the partition selector, [show mode] throws
    the error ["invalid mode selector"] for every mode whose selector
    type is neither ["group"] nor ["rootNodeId"]; for the type
    ["rootNodeId"] it throws ["unknown root node"] exactly when no root
    node of the data has the selector's value as its id; and after either
    error the current root, the [TreeMap], the container, the panels and
    the hues handed out are what they were. *)
Theorem show_errors_spec (mode : Mode) (v : Viewer) :
  is_Some (partition_selector (page v)) ->
  let result := show shown mode v in
  (type (selector mode) <> str "group" ->
   type (selector mode) <> str "rootNodeId" ->
   result.1 = inl (Error (str "invalid mode selector")) /\
   same_rendering v result.2) /\
  (type (selector mode) = str "rootNodeId" ->
   (result.1 = inl (Error (str "unknown root node"))
    <-> forall rootNode,
        rootNode ∈ all_rootNodes v ->
        RootNode.id rootNode <> value (selector mode)) /\
   (result.1 = inl (Error (str "unknown root node")) ->
    same_rendering v result.2)).
Proof.
  intros Hps result. subst result.
  rewrite show_run, (rebuild_prologue mode v Hps).
  split.
  - intros Hgroup Hroot.
    rewrite decide_False by exact Hgroup. rewrite decide_False by exact Hroot.
    rewrite bind_run. simpl. split; [reflexivity | apply after_prologue_same].
  - intros Htype.
    rewrite decide_False by (rewrite Htype; vm_compute; discriminate).
    rewrite decide_True by exact Htype.
    rewrite <- findRootNode_None.
    assert (Hsame : findRootNode (value (selector mode)) v
                    = findRootNode (value (selector (with_partitionBy mode)))
                        (after_prologue mode v))
      by (rewrite with_partitionBy_selector; reflexivity).
    destruct (findRootNode (value (selector mode)) v) as [rootNode |] eqn:Hfind.
    + pose proof (select_rootNode_found (with_partitionBy mode)
                    (after_prologue mode v) rootNode (eq_sym Hsame)) as Hexc.
      rewrite bind_run in Hexc.
      set (run := (select_rootNode (with_partitionBy mode);;
                   present (with_partitionBy mode)) (after_prologue mode v)) in *.
      assert (Hnot : (match run with
                      | (inl e, v') => (inl e, v')
                      | (inr _, v') => render shown v'
                      end).1 <> inl (Error (str "unknown root node"))).
      { intros He. apply show_exception_not_unknown. exact (Hexc _ He). }
      split; [split; [intros He; contradiction | discriminate] |].
      intros He. contradiction.
    + assert (Hrun : (select_rootNode (with_partitionBy mode);;
                      present (with_partitionBy mode)) (after_prologue mode v)
                     = (inl (Error (str "unknown root node")), after_prologue mode v)).
      { unfold select_rootNode. rewrite !bind_run. simpl.
        rewrite with_partitionBy_selector in Hsame. simpl in Hsame.
        rewrite with_partitionBy_selector.
        unfold findRootNode in *. simpl in *. rewrite <- Hsame. reflexivity. }
      rewrite Hrun. simpl.
      split; [split; reflexivity | intros _; apply after_prologue_same].
Qed.

Lemma group_lookup_None (data : TreemapData) (key : jsstring) :
  key ∉ data.*1 -> group_lookup data key = None.
Proof.
  induction data as [| [k rootNodes] data IH]; intros Hnot; [reflexivity |].
  simpl. destruct (decide (k = key)) as [-> | Hne].
  - exfalso. apply Hnot. left.
  - apply IH. intros Hin. apply Hnot. right. exact Hin.
Qed.

(** C9: for a mode whose selector type is ["group"] and whose value is
    no key of the data, [show mode] fails, with neither ["invalid mode
    selector"] nor ["unknown root node"]: on a page that has the
    partition selector the lookup of the group gives [undefined] and the
    [map] over it throws a [TypeError]; what the viewer has rendered is
    left as it was. *)
Theorem show_unknown_group_spec (mode : Mode) (v : Viewer) :
  type (selector mode) = str "group" ->
  value (selector mode) ∉ (treemapData v).*1 ->
  let result := show shown mode v in
  result.1 <> inr tt /\
  result.1 <> inl (Error (str "invalid mode selector")) /\
  result.1 <> inl (Error (str "unknown root node")) /\
  (is_Some (partition_selector (page v)) -> result.1 = inl TypeError) /\
  same_rendering v result.2.
Proof.
  intros Htype Hkey result. subst result.
  destruct (partition_selector (page v)) as [ps |] eqn:Hps.
  - rewrite show_run, (rebuild_prologue mode v) by (rewrite Hps; eauto).
    rewrite decide_True by exact Htype.
    assert (Hrun : (select_group (with_partitionBy mode);;
                    present (with_partitionBy mode)) (after_prologue mode v)
                   = (inl TypeError, after_prologue mode v)).
    { unfold select_group. rewrite !bind_run. simpl.
      rewrite with_partitionBy_selector.
      rewrite (group_lookup_None _ _ Hkey). reflexivity. }
    rewrite Hrun. simpl.
    repeat split; try discriminate. 
  - rewrite show_run, (rebuild_no_partition_selector mode v Hps). simpl.
    repeat split; try discriminate.
    intros [ps' Hps']. discriminate.
Qed.

End ShowErrors.

Section ShowWitnesses.
Import Js Treemap.

Lemma show_errors_witness :
  is_Some (partition_selector (page two_leaves_viewer)) /\
  (show shown_all (mode_of "bogus" "x") two_leaves_viewer).1
  = inl (Error (str "invalid mode selector")) /\
  (show shown_all (mode_of "rootNodeId" "nowhere") two_leaves_viewer).1
  = inl (Error (str "unknown root node")).
Proof.
  assert (Hps : is_Some (partition_selector (page two_leaves_viewer)))
    by (eexists; reflexivity).
  split; [exact Hps |]. split.
  - destruct (show_errors_spec shown_all (mode_of "bogus" "x") two_leaves_viewer Hps)
      as [Hinvalid _].
    apply Hinvalid; vm_compute; discriminate.
  - destruct (show_errors_spec shown_all (mode_of "rootNodeId" "nowhere")
                two_leaves_viewer Hps) as [_ Hroot].
    apply (Hroot eq_refl).
    intros rootNode Hin. vm_compute in Hin.
    apply list_elem_of_singleton in Hin. subst rootNode.
    vm_compute. discriminate.
Defined.

Lemma show_unknown_group_witness :
  type (selector (mode_of "group" "styles")) = str "group" /\
  (value (selector (mode_of "group" "styles")) ∉ (treemapData two_leaves_viewer).*1) /\
  (show shown_all (mode_of "group" "styles") two_leaves_viewer).1 = inl TypeError.
Proof.
  assert (Hkey : value (selector (mode_of "group" "styles"))
                 ∉ (treemapData two_leaves_viewer).*1).
  { vm_compute. intros Hin. apply list_elem_of_singleton in Hin. discriminate. }
  split; [reflexivity |]. split; [exact Hkey |].
  apply (show_unknown_group_spec shown_all (mode_of "group" "styles")
           two_leaves_viewer eq_refl Hkey).
  eexists; reflexivity.
Defined.

End ShowWitnesses.

Section LabelsKept.
Import Js Treemap.
Variable shown : list nat -> Node -> bool.

Lemma ids_preorder_unfold (n : Node) :
  ids_preorder n =
  id n :: match children n with
          | None => []
          | Some cs => concat (map ids_preorder cs)
          end.
Proof. destruct n; reflexivity. Qed.

Lemma visit_list_ids (n : Node) :
  forall pos f,
    map (fun visit : list nat * Node * option jsstring => id visit.1.2)
      (visit_list pos n f)
    = ids_preorder n.
Proof.
  induction n as [n IH] using Node_children_ind. intros pos f.
  rewrite visit_list_unfold, ids_preorder_unfold. simpl. f_equal.
  destruct (children n) as [cs |]; [| reflexivity].
  specialize (IH cs eq_refl). generalize 0%nat.
  induction IH as [| c l Hc _ IHl]; intros k; [reflexivity |].
  simpl. rewrite map_app, Hc, IHl. reflexivity.
Qed.

Lemma labels_ids (n : Node) : labels n = ids_preorder n.
Proof. unfold labels. rewrite visits_visit_list. apply visit_list_ids. Qed.

(** A callback that keeps the id and the children of the node it is
    given leaves the ids of the tree as they are, whether the visit ends
    or throws. *)
Lemma dfs_ids {S}
  (fn : list nat -> Node -> option jsstring -> S -> (Exception + Node) * S) :
  (forall pos n f s n',
      (fn pos n f s).1 = inr n' -> id n' = id n /\ children n' = children n) ->
  forall n pos f s, ids_preorder (dfs fn pos n f s).1.1 = ids_preorder n.
Proof.
  intros Hfn n. induction n as [n IH] using Node_children_ind. intros pos f s.
  rewrite dfs_unfold. simpl.
  specialize (Hfn pos n (extend_fullId f n) s).
  destruct (fn pos n _ s) as [[e | n'] s1]; [reflexivity |].
  destruct (Hfn n' eq_refl) as [Hid Hch]. simpl.
  destruct (children n) as [cs |] eqn:Hcs.
  - specialize (IH cs eq_refl).
    assert (Hloop : forall k s0,
              concat (map ids_preorder
                        (dfs_children fn pos (extend_fullId f n) k cs s0).1.1)
              = concat (map ids_preorder cs)).
    { clear Hcs Hch Hfn. induction IH as [| c l Hc _ IHl]; intros k s0; [reflexivity |].
      simpl. specialize (Hc (pos ++ [k]) (extend_fullId f n) s0).
      destruct (dfs fn (pos ++ [k]) c _ s0) as [[c' s2] [e |]]; simpl in *.
      - rewrite Hc. reflexivity.
      - specialize (IHl (Datatypes.S k) s2).
        destruct (dfs_children fn pos _ (Datatypes.S k) l s2) as [[l' s3] e].
        simpl in *. rewrite Hc, IHl. reflexivity. }
    specialize (Hloop 0%nat s1).
    destruct (dfs_children fn pos _ 0 cs s1) as [[cs' s2] e]. simpl in *.
    rewrite (ids_preorder_unfold n), Hcs, <- Hloop, <- Hid.
    destruct n'; reflexivity.
  - cbn [fst snd].
    rewrite (ids_preorder_unfold n), (ids_preorder_unfold n'), Hcs, Hch, Hid.
    reflexivity.
Qed.

Lemma ensureDOM_ids (n : Node) :
  id (ensureDOM n) = id n /\ children (ensureDOM n) = children n.
Proof. unfold ensureDOM. destruct (dom n); destruct n; auto. Qed.

Lemma attach_dom_unfold (pos : list nat) (n : Node) :
  attach_dom shown pos n =
  let n' := if shown pos n then ensureDOM n else n in
  match children n with
  | None => n'
  | Some cs => set_children (Some (attach_dom_children shown pos 0 cs)) n'
  end.
Proof.
  destruct n as [i o h b w t d z cs dm]. simpl.
  destruct cs as [cs |]; [| reflexivity]. f_equal. f_equal.
  generalize 0%nat. induction cs as [| c l IH]; intros k; [reflexivity |].
  simpl. rewrite IH. reflexivity.
Qed.

Lemma attach_dom_ids (n : Node) :
  forall pos, ids_preorder (attach_dom shown pos n) = ids_preorder n.
Proof.
  induction n as [n IH] using Node_children_ind. intros pos.
  rewrite attach_dom_unfold. simpl.
  set (n' := if shown pos n then ensureDOM n else n).
  assert (Hn' : id n' = id n /\ children n' = children n)
    by (subst n'; destruct (shown pos n); [apply ensureDOM_ids | auto]).
  destruct Hn' as [Hid Hch].
  rewrite (ids_preorder_unfold n).
  destruct (children n) as [cs |] eqn:Hcs.
  - specialize (IH cs eq_refl).
    assert (Hloop : forall k,
              concat (map ids_preorder (attach_dom_children shown pos k cs))
              = concat (map ids_preorder cs)).
    { clear Hcs Hch. induction IH as [| c l Hc _ IHl]; intros k; [reflexivity |].
      simpl. rewrite Hc, IHl. reflexivity. }
    rewrite <- (Hloop 0%nat), <- Hid. destruct n'; reflexivity.
  - rewrite (ids_preorder_unfold n'), Hch, Hid. reflexivity.
Qed.

Lemma TreeMap_render_ids (n : Node) :
  ids_preorder (TreeMap_render shown n) = ids_preorder n.
Proof.
  unfold TreeMap_render. rewrite attach_dom_ids.
  unfold ensureDOM. destruct (dom n); [reflexivity |]. destruct n; reflexivity.
Qed.

Lemma updateColors_fn_ids mode pos n f s n' :
  (updateColors_fn mode pos n f s).1 = inr n' ->
  id n' = id n /\ children n' = children n.
Proof.
  unfold updateColors_fn.
  destruct (dom n); [| intros [= <-]; auto].
  destruct (highlightNodeIds mode).
  - destruct (includes _ _); intros [= <-]; destruct n; auto.
  - destruct (Util.call (idHash n) s) as [[hue |] s']; intros [= <-];
      destruct n; auto.
Qed.

(** Neither colouring nor laying out changes a label. *)
Lemma updateColors_root_ids (v : Viewer) :
  root_ids (updateColors v).2 = root_ids v.
Proof.
  rewrite updateColors_run. unfold root_ids.
  destruct (currentRootNode v) as [root |] eqn:Hroot; [| simpl; rewrite Hroot; reflexivity].
  pose proof (dfs_ids (updateColors_fn (mode v)) (updateColors_fn_ids (mode v))
                root [] (Some []) (getHue v)) as Hids.
  unfold dfs_root.
  destruct (dfs _ [] root (Some []) (getHue v)) as [[root' h] e]. exact Hids.
Qed.

Lemma render_run (v : Viewer) :
  render shown v =
  match treemap v, currentRootNode v with
  | NoTreeMap, _ | TreeMapOfCurrent, None => (inl TypeError, v)
  | TreeMapOfCurrent, Some root =>
      updateColors
        (set_el true (set_currentRootNode (Some (TreeMap_render shown root)) v))
  | TreeMapOf node, _ =>
      updateColors
        (set_el true (set_treemap (TreeMapOf (TreeMap_render shown node)) v))
  end.
Proof.
  unfold render. rewrite !bind_run. simpl.
  destruct (treemap v), (currentRootNode v); reflexivity.
Qed.

Lemma render_root_ids (v : Viewer) :
  root_ids (render shown v).2 = root_ids v.
Proof.
  rewrite render_run.
  destruct (treemap v), (currentRootNode v) as [root |] eqn:Hroot;
    rewrite ?updateColors_root_ids; unfold root_ids; simpl; rewrite ?Hroot;
    try reflexivity.
  apply TreeMap_render_ids.
Qed.

Lemma current_labels_root_ids (v : Viewer) :
  current_labels (Some v) = root_ids v.
Proof.
  unfold current_labels, root_ids.
  destruct (currentRootNode v); [apply labels_ids | reflexivity].
Qed.

(** The labels of the two leaves, whatever the layout. *)
Lemma two_leaves_labels :
  current_labels (init_viewer shown two_leaves_options blank_page)
  = [ Some (str "bundle.js " ++ [bullet] ++ str " bytes: 400 B (100%)");
      Some (str "b.js " ++ [bullet] ++ str " 300 B (75%)");
      Some (str "a.js " ++ [bullet] ++ str " 100 B (25%)") ].
Proof.
  unfold init_viewer.
  change (constructor two_leaves_options blank_page) with
    (@inr Exception Viewer two_leaves_viewer).
  cbn [options_mode two_leaves_options].
  rewrite current_labels_root_ids, show_run.
  destruct (rebuild two_leaves_mode two_leaves_viewer) as [r v1] eqn:Hrebuild.
  vm_compute in Hrebuild. injection Hrebuild as <- <-.
  rewrite render_root_ids. vm_compute. reflexivity.
Qed.

End LabelsKept.

Section Labels.
Import Js Treemap.

Lemma setTitle_titles (v : Viewer) (root : Node) :
  currentRootNode v = Some root ->
  (forall pos n, node_at root pos = Some n -> is_Some (originalId n)) ->
  setTitle v
  = (inr tt,
     set_currentRootNode
       (Some (tree_map (titled (mode v) (metric (partition_key (mode v)) root)) [] root))
       v).
Proof.
  intros Hroot Hids. unfold setTitle.
  unfold mbind, M_bind, bind, get. simpl. rewrite Hroot.
  unfold dfs_root.
  rewrite (dfs_tree_map _ (titled (mode v) (metric (partition_key (mode v)) root))).
  - reflexivity.
  - intros q m f' s' Hm. simpl. unfold setTitle_fn, titled.
    destruct (Hids q m Hm) as [oid ->]. reflexivity.
Qed.

(** C2, as amended: when every node of the current root has an
    [originalId], [setTitle] gives every node the label made of
    [elide(originalId, 60)], [" • "], and the formatted value of the
    active metric followed by its percentage of the root's value,
    rounded, in brackets; on the root the name of the metric and [": "]
    come before the formatted value.  For the bundle with leaves of 100
    and 300 bytes and 400 bytes at the root, shown by its id and
    partitioned by bytes, under any layout, the labels of the leaves end
    in ["(25%)"] and ["(75%)"], so contain ["25%"] and ["75%"]. *)
Theorem setTitle_spec :
  (forall (v : Viewer) (root : Node),
      currentRootNode v = Some root ->
      (forall pos n, node_at root pos = Some n -> is_Some (originalId n)) ->
      exists root',
        setTitle v = (inr tt, set_currentRootNode (Some root') v) /\
        forall pos n,
          node_at root pos = Some n ->
          exists n' oid,
            node_at root' pos = Some n' /\
            originalId n = Some oid /\
            let key := partition_key (mode v) in
            let unit :=
              match partitionBy (mode v) with
              | Some pb_executionTime => str "time"
              | _ => str "bytes"
              end in
            let name :=
              match pos, partitionBy (mode v) with
              | [], Some label => partitionBy_name label ++ str ": "
              | _, _ => []
              end in
            id n'
            = Some (Util.elide oid 60 ++ [32%N; bullet; 32%N] ++ name
                      ++ Util.format (metric key n) unit ++ str " ("
                      ++ rounded_toString (percent (metric key n) (metric key root))
                      ++ str "%)")) /\
  (forall shown,
      current_labels (init_viewer shown two_leaves_options blank_page)
      = [ Some (str "bundle.js " ++ [bullet] ++ str " bytes: 400 B (100%)");
          Some (str "b.js " ++ [bullet] ++ str " 300 B (75%)");
          Some (str "a.js " ++ [bullet] ++ str " 100 B (25%)") ]) /\
  String_includes (str "a.js " ++ [bullet] ++ str " 100 B (25%)") (str "25%") = true /\
  String_includes (str "b.js " ++ [bullet] ++ str " 300 B (75%)") (str "75%") = true.
Proof.
  split; [| split; [exact two_leaves_labels | split; reflexivity]].
  intros v root Hroot Hids.
  eexists. split; [apply (setTitle_titles v root Hroot Hids) |].
  intros pos n Hn. destruct (Hids pos n Hn) as [oid Hoid].
  rewrite tree_map_node_at by reflexivity. rewrite Hn. simpl.
  eexists. exists oid. split; [reflexivity |]. split; [exact Hoid |].
  rewrite tree_map_id. unfold titled. rewrite Hoid. simpl.
  unfold title_of, metric_text. simpl.
  destruct pos as [| i pos]; simpl.
  - destruct (partitionBy (mode v)) as [label |]; simpl;
      rewrite <- ?app_assoc; reflexivity.
  - destruct (partitionBy (mode v)) as [label |]; reflexivity.
Qed.

(** C2, as stated, fails: the leaf of 100 bytes under the root of 400
    bytes is labelled with 25%, and neither leaf's label contains
    ["33%"]. *)
Lemma two_leaves_no_33_percent :
  current_labels (init_viewer shown_all two_leaves_options blank_page)
  = [ Some (str "bundle.js " ++ [bullet] ++ str " bytes: 400 B (100%)");
      Some (str "b.js " ++ [bullet] ++ str " 300 B (75%)");
      Some (str "a.js " ++ [bullet] ++ str " 100 B (25%)") ] /\
  map (fun label => String_includes (default [] label) (str "33%"))
    (current_labels (init_viewer shown_all two_leaves_options blank_page))
  = [false; false; false].
Proof. split; vm_compute; reflexivity. Qed.

End Labels.

(** ** The colours *)

Section Colours.
Import Js Treemap.

Lemma tree_map_idHash g (pos : list nat) (n : Node) :
  idHash (tree_map g pos n) = idHash (g pos n).
Proof.
  rewrite tree_map_unfold. destruct (children n); [| reflexivity].
  destruct (g pos n); reflexivity.
Qed.

(** The constructor gives every node of a root node the hash of the
    root node's id. *)
Lemma stamp_idHash (rootNode : RootNode.t) (pos : list nat) (n : Node) :
  node_at (RootNode.node (stamp rootNode)) pos = Some n ->
  idHash n = Some (idHash_of (RootNode.id rootNode)).
Proof.
  unfold stamp, dfs_root. simpl.
  rewrite (dfs_tree_map (update_node (fun node => set_originalId (id node) node))
             (fun _ node => set_originalId (id node) node))
    by reflexivity.
  simpl.
  rewrite (dfs_tree_map (update_node (set_idHash (Some (idHash_of (RootNode.id rootNode)))))
             (fun _ => set_idHash (Some (idHash_of (RootNode.id rootNode)))))
    by reflexivity.
  simpl. rewrite tree_map_node_at by reflexivity.
  destruct (node_at _ pos) as [m |]; [| discriminate].
  simpl. intros [= <-]. rewrite tree_map_idHash. reflexivity.
Qed.

Lemma updateColors_returns (v : Viewer) :
  is_Some (currentRootNode v) -> (updateColors v).1 = inr tt.
Proof.
  intros [root Hroot]. rewrite updateColors_run, Hroot.
  pose proof (dfs_exception (updateColors_fn (mode v)) (fun _ => False)) as Hdfs.
  unfold dfs_root.
  destruct (dfs _ [] root (Some []) (getHue v)) as [[root' h] [e |]] eqn:Hrun;
    [| reflexivity].
  exfalso.
  apply (Hdfs ltac:(intros pos n f s e0 He;
                     destruct (updateColors_fn_no_throw (mode v) pos n f s) as [n' Hn'];
                     congruence)
           root [] (Some []) (getHue v) e).
  rewrite Hrun. reflexivity.
Qed.

(** C10, as amended: in [updateColors], with no highlight set, a node
    for whose [idHash] the hasher returns [null] is left as it is, and
    nothing is thrown; all through a session the hues handed out and
    the hues left make up the 17 hues of [Util.COLOR_HUES], so at most 17
    hashes are ever assigned a hue; every node of one root node carries
    the hash of the root node's id, the sum of the character codes,
    which the ids ["ab"] and ["ba"] share. *)
Theorem updateColors_spec :
  (forall mode pos node fullId (getHue : Util.Hasher float),
      is_Some (dom node) ->
      highlightNodeIds mode = None ->
      (Util.call (idHash node) getHue).1 = None ->
      updateColors_fn mode pos node fullId getHue = (inr node, getHue)) /\
  (forall v, is_Some (currentRootNode v) -> (updateColors v).1 = inr tt) /\
  (forall shown options page v0 events,
      constructor options page = inr v0 ->
      let v := session shown events v0 in
      accounts_for Util.COLOR_HUES (getHue v) /\
      (base.size (Util.assignedItems (getHue v)) <= 17)%nat) /\
  (forall options page v0 rootNode pos n,
      constructor options page = inr v0 ->
      rootNode ∈ all_rootNodes v0 ->
      node_at (RootNode.node rootNode) pos = Some n ->
      idHash n = Some (idHash_of (RootNode.id rootNode))) /\
  idHash_of (str "ab") = idHash_of (str "ba") /\
  length Util.COLOR_HUES = 17%nat.
Proof.
  split; [| split; [exact updateColors_returns | split; [| split; [| split; reflexivity]]]].
  - intros mode pos node fullId getHue [style Hdom] Hhl Hnull.
    unfold updateColors_fn. rewrite Hdom, Hhl.
    destruct (call_cases (idHash node) getHue)
      as [(x & _ & Hc) | [(_ & _ & Hc) | (l1 & x & l2 & _ & _ & Hc)]];
      rewrite Hc in *; simpl in *; try discriminate. reflexivity.
  - intros shown options page v0 events Hv0 v. subst v.
    assert (Hacc : accounts_for Util.COLOR_HUES
                     (getHue (session shown events v0))).
    { apply (session_keeps shown (accounts_for Util.COLOR_HUES)).
      - intros hash h. apply call_accounts_for.
      - unfold constructor in Hv0.
        destruct (details_treemapData options); [| discriminate].
        injection Hv0 as <-. apply stableHasher_accounts_for. }
    split; [exact Hacc |].
    unfold accounts_for in Hacc. apply Permutation_length in Hacc.
    rewrite length_app, length_fmap, length_map_to_list in Hacc.
    change (length Util.COLOR_HUES) with 17%nat in Hacc. lia.
  - intros options page v0 rootNode pos n Hv0 Hin Hn.
    unfold constructor in Hv0.
    destruct (details_treemapData options) as [data |]; [| discriminate].
    injection Hv0 as <-. unfold all_rootNodes in Hin. simpl in Hin.
    induction data as [| [k rns] data IH]; simpl in Hin; [inversion Hin |].
    apply elem_of_app in Hin as [Hin | Hin]; [| exact (IH Hin)].
    apply list_elem_of_In, in_map_iff in Hin as (r & <- & _).
    exact (stamp_idHash r pos n Hn).
Qed.

(** C10, as stated, fails in its last part: shown one after the other,
    eighteen bundles with different ids all get a hue, the bundles
    ["ab"] and ["ba"] the same one. *)
Lemma eighteen_bundles_hued :
  constructor eighteen_options blank_page = inr eighteen_viewer /\
  map shown_root (states shown_all show_each eighteen_viewer)
  = map (fun name => (Some (str name), true)) eighteen_ids /\
  length eighteen_ids = 18%nat /\
  NoDup eighteen_ids.
Proof.
  split; [reflexivity |]. split; [vm_compute; reflexivity |].
  split; [reflexivity |].
  apply (bool_decide_unpack _). vm_compute. reflexivity.
Qed.

End Colours.
